(** * Propositional formulas: syntax, parsing, semantics and synthesis

    A shallow embedding of [propositions/syntax.py] and
    [propositions/semantics.py], and the properties of the parser, the
    evaluator, the model enumeration, the classifiers and the two
    normal-form synthesizers.

    Python strings are [string], over the 256 code points of [ascii], among
    which [isdecimal] holds of the digits [0] to [9] only; a dict is an
    association list kept in insertion order with unique keys; a Python
    [set] of names is a [gset string]; a call that may raise returns an
    [outcome]. The decorators [lru_cache], [frozen] and
    [memoized_parameterless_method] change no result and are left out. *)

From Stdlib Require Import Strings.String Strings.Ascii ZArith Lia.
From stdpp Require Import base option list sets gmap strings.

Local Open Scope string_scope.
Local Open Scope list_scope.

(** ** Outcomes: a returned value, a raised exception, or recursion fuel
    exhausted (only [_parse_prefix] recurses on something other than a
    strict subterm). *)

Inductive exn : Set :=
| AssertionError
| IndexError
| KeyError
| TypeError.

Inductive outcome (A : Type) : Type :=
| Ret (a : A)
| Raise (e : exn)
| OutOfFuel.

Arguments Ret {A} a.
Arguments Raise {A} e.
Arguments OutOfFuel {A}.

Definition bind {A B} (m : outcome A) (k : A -> outcome B) : outcome B :=
  match m with
  | Ret a => k a
  | Raise e => Raise e
  | OutOfFuel => OutOfFuel
  end.

Notation "'let*' x ':=' m 'in' k" := (bind m (fun x => k))
  (at level 10, x pattern, m at level 100, k at level 200, only parsing).

(** [assert b] *)
Definition assert (b : bool) : outcome unit :=
  if b then Ret tt else Raise AssertionError.

(** ** Strings *)

Definition str_empty (s : string) : bool :=
  match s with "" => true | _ => false end.

(** [s[:n]] and [s[n:]] for [n >= 0] *)
Fixpoint str_take (n : nat) (s : string) : string :=
  match n, s with
  | S n', String c s' => String c (str_take n' s')
  | _, _ => ""
  end.

Fixpoint str_drop (n : nat) (s : string) : string :=
  match n, s with
  | S n', String _ s' => str_drop n' s'
  | _, _ => s
  end.

(** [s[1:-1]] *)
Definition str_inner (s : string) : string :=
  str_take (String.length s - 2) (str_drop 1 s).

(** [s[0]], an [IndexError] on the empty string *)
Definition str_first (s : string) : outcome ascii :=
  match s with
  | "" => Raise IndexError
  | String c _ => Ret c
  end.

Definition char_le (a b : ascii) : bool := (nat_of_ascii a <=? nat_of_ascii b)%nat.
Definition char_eq (a b : ascii) : bool := bool_decide (a = b).
Definition str_eq (a b : string) : bool := bool_decide (a = b).

(** [c.isdecimal()] on a character, and [s.isdecimal()] on a string (false on
    the empty string) *)
Definition char_isdecimal (c : ascii) : bool :=
  char_le "0" c && char_le c "9".

Fixpoint all_decimal (s : string) : bool :=
  match s with
  | "" => true
  | String c s' => char_isdecimal c && all_decimal s'
  end.

Definition isdecimal (s : string) : bool :=
  negb (str_empty s) && all_decimal s.

(** ** Token classes ([syntax.py], lines 16-68) *)

Definition is_variable (s : string) : outcome bool :=
  match s with
  | "" => Raise IndexError
  | String c tl =>
      Ret (char_le "p" c && char_le c "z"
           && ((String.length s =? 1)%nat || isdecimal tl))
  end.

Definition is_constant (s : string) : bool :=
  str_eq s "T" || str_eq s "F".

Definition is_unary (s : string) : bool := str_eq s "~".

Definition is_binary (s : string) : bool :=
  str_eq s "&" || str_eq s "|" || str_eq s "->".

(** ** The token scanner [parse_str] ([syntax.py], lines 71-107) *)

(** The digits gathered by the loop of the variable branch. *)
Fixpoint decimals_of (s : string) : string :=
  match s with
  | "" => ""
  | String i s' => if char_isdecimal i then String i (decimals_of s') else ""
  end.

(** The [for ind, ele in enumerate(string)] loop of the parenthesis branch:
    the pair of [ind] and [counter] after the loop, [ind] already bumped by
    the [else] clause when the loop ran to the end of the string. *)
Fixpoint scan_group (s : string) (ind : nat) (counter : Z) : nat * Z :=
  match s with
  | "" => (ind, counter)
  | String ele s' =>
      if char_eq ele "(" then scan_group s' (S ind) (counter + 1)%Z
      else if char_eq ele ")" then scan_group s' (S ind) (counter - 1)%Z
      else if (counter =? 0)%Z then (ind, counter)
      else scan_group s' (S ind) counter
  end.

Definition parse_str (s : string) : outcome (string * string) :=
  let* c := str_first s in
  let* v := is_variable (String c "") in
  if v then
    let len_decimals := String.length (decimals_of (str_drop 1 s)) in
    Ret (str_take (len_decimals + 1) s, str_drop (len_decimals + 1) s)
  else if str_eq (str_take 2 s) "->" then
    Ret (str_take 2 s, str_drop 2 s)
  else if char_eq c "(" then
    let '(ind, counter) := scan_group s 0 0%Z in
    if negb (counter =? 0)%Z then Ret (String c "", str_drop 1 s)
    else Ret (str_take ind s, str_drop ind s)
  else Ret (String c "", str_drop 1 s).

(** ** Formula trees ([syntax.py], lines 110-147)

    A node keeps its [root] string. The constructor records which branch of
    [__init__] built the node, that is, which of [first] and [second] the
    object has. *)

Inductive Formula : Type :=
| Atom (root : string)
| Unary (root : string) (first : Formula)
| Binary (root : string) (first second : Formula).

#[global] Instance Formula_eq_dec : EqDecision Formula.
Proof. solve_decision. Defined.

(** [Formula(root, first, second)], with its assertions. *)
Definition Formula_init (root : string) (first second : option Formula)
  : outcome Formula :=
  let* v := is_variable root in
  if v || is_constant root then
    let* _ := assert (bool_decide (first = None) && bool_decide (second = None)) in
    Ret (Atom root)
  else if is_unary root then
    match first, second with
    | Some f, None => Ret (Unary root f)
    | _, _ => Raise AssertionError
    end
  else
    let* _ := assert (is_binary root) in
    match first, second with
    | Some f, Some g => Ret (Binary root f g)
    | _, _ => Raise AssertionError
    end.

(** The trees that [__init__] can build. *)
Fixpoint wf (f : Formula) : bool :=
  match f with
  | Atom root =>
      match is_variable root with
      | Ret v => v || is_constant root
      | _ => false
      end
  | Unary root first => is_unary root && wf first
  | Binary root first second => is_binary root && wf first && wf second
  end.

(** [__repr__] ([syntax.py], lines 149-162) *)
Fixpoint repr (f : Formula) : string :=
  match f with
  | Atom root => root
  | Unary root first => root +:+ repr first
  | Binary root first second =>
      "(" +:+ repr first +:+ root +:+ repr second +:+ ")"
  end.

(** [Formula.variables] ([syntax.py], lines 191-206) *)
Fixpoint variables (f : Formula) : gset string :=
  match f with
  | Atom root =>
      match is_variable root with
      | Ret true => {[ root ]}
      | _ => ∅
      end
  | Unary _ first => variables first
  | Binary _ first second => variables first ∪ variables second
  end.

(** ** The recursive-descent parser ([syntax.py], lines 226-302)

    [fuel] bounds the depth of the recursion. *)

Fixpoint _parse_prefix (fuel : nat) (s : string)
  : outcome (option Formula * string) :=
  match fuel with
  | O => OutOfFuel
  | S fuel =>
    if str_empty s then Ret (None, "string not found!") else
    let* (first, rest) := parse_str s in
    let* v := is_variable first in
    if v || is_constant first then
      let* f := Formula_init first None None in Ret (Some f, rest)
    else if is_binary first then Ret (None, s)
    else if is_unary first then
      if str_empty rest then
        Ret (None, first +:+ " is unary not a valid formula!")
      else
        let* r1 := _parse_prefix fuel rest in
        let* f := Formula_init first r1.1 None in
        let* r2 := _parse_prefix fuel rest in
        Ret (Some f, r2.2)
    else
      let* c := str_first first in
      if char_eq c "(" then
        if str_eq first "(" then Ret (None, "some of '(' are not closed!")
        else
          let* (first_f, _rest) := _parse_prefix fuel (str_inner first) in
          if str_empty _rest then
            Ret (None, "there should be two formulas but one found!")
          else
            let* (connective, _second) := parse_str _rest in
            if negb (is_binary connective) then
              Ret (None, "wrong connective is been used!")
            else
              let* (second_f, second_r) := _parse_prefix fuel _second in
              if negb (str_empty second_r) then
                match second_f with
                | None => Ret (None, second_r +:+ " is not a valid formula!")
                | Some _ => Ret (None, "couldn't parse " +:+ second_r +:+ "!")
                end
              else
                let* f := Formula_init connective first_f second_f in
                Ret (Some f, rest)
      else Ret (None, s +:+ " is not a valid formula!")
  end.

Definition is_formula (fuel : nat) (s : string) : outcome bool :=
  let* r := _parse_prefix fuel s in
  Ret (str_empty r.2).

Definition parse (fuel : nat) (s : string) : outcome (option Formula) :=
  let* ok := is_formula fuel s in
  let* _ := assert ok in
  let* r := _parse_prefix fuel s in
  Ret r.1.

(** [substitute_variables] ([syntax.py], lines 332-355): the body checks the
    keys of the map and ends there, so the call returns [None]. *)
Fixpoint check_substitution_keys (keys : list string) : outcome unit :=
  match keys with
  | [] => Ret tt
  | variable :: keys' =>
      let* v := is_variable variable in
      let* _ := assert v in
      check_substitution_keys keys'
  end.

Definition substitute_variables (self : Formula)
    (substitution_map : list (string * Formula)) : outcome (option Formula) :=
  let* _ := check_substitution_keys (substitution_map.*1) in
  Ret None.

(** ** Models ([semantics.py], lines 15-47)

    A dict from names to truth values, in insertion order. *)

Abbreviation Model := (list (string * bool)).

(** [model[key]] *)
Fixpoint dict_get {V} (model : list (string * V)) (key : string) : outcome V :=
  match model with
  | [] => Raise KeyError
  | (k, v) :: model' => if str_eq k key then Ret v else dict_get model' key
  end.

(** [model[key] = value]: an existing key keeps its place. *)
Fixpoint dict_set {V} (model : list (string * V)) (key : string) (value : V)
  : list (string * V) :=
  match model with
  | [] => [(key, value)]
  | (k, v) :: model' =>
      if str_eq k key then (k, value) :: model'
      else (k, v) :: dict_set model' key value
  end.

(** [a | b] on dicts *)
Definition dict_union {V} (a b : list (string * V)) : list (string * V) :=
  fold_left (fun acc kv => dict_set acc kv.1 kv.2) b a.

Fixpoint is_model_keys (keys : list string) : outcome bool :=
  match keys with
  | [] => Ret true
  | key :: keys' =>
      let* v := is_variable key in
      if negb v then Ret false else is_model_keys keys'
  end.

Definition is_model (model : Model) : outcome bool :=
  is_model_keys (model.*1).

(** [variables(model)] of [semantics.py]; the name [variables] is taken by
    the method of [Formula]. *)
Definition model_variables (model : Model) : outcome (list string) :=
  let* m := is_model model in
  let* _ := assert m in
  Ret (model.*1).

(** ** The evaluator ([semantics.py], lines 50-86)

    The branches marked [AssertionError] are those that the assertions of
    [__init__] exclude: an atom that is neither a variable nor a constant,
    a binary node whose root is not a binary operator. *)

Fixpoint evaluate (formula : Formula) (model : Model) : outcome bool :=
  let* m := is_model model in
  let* _ := assert m in
  let* keys := model_variables model in
  let* _ := assert (bool_decide (variables formula ⊆ list_to_set keys)) in
  match formula with
  | Atom root =>
      let* v := is_variable root in
      if v then dict_get model root
      else if is_constant root then
        if str_eq root "T" then Ret true else Ret false
      else Raise AssertionError
  | Unary _ first =>
      let* a := evaluate first model in Ret (negb a)
  | Binary root first second =>
      if str_eq root "|" then
        let* a := evaluate first model in
        if a then Ret true else evaluate second model
      else if str_eq root "&" then
        let* a := evaluate first model in
        if a then evaluate second model else Ret false
      else if str_eq root "->" then
        let* a := evaluate first model in
        if negb a then Ret true else evaluate second model
      else Raise AssertionError
  end.

(** ** Model enumeration ([semantics.py], lines 89-112)

    The body is a [for] loop that returns in its first iteration; on an empty
    list no [return] is reached and the call yields [None]. *)

(** Iterating or subscripting [None] is a [TypeError]. *)
Definition iterate {A} (xs : option (list A)) : outcome (list A) :=
  match xs with
  | None => Raise TypeError
  | Some l => Ret l
  end.

Definition subscript {A} (xs : option (list A)) (ind : nat) : outcome A :=
  let* l := iterate xs in
  match l !! ind with
  | None => Raise IndexError
  | Some x => Ret x
  end.

Fixpoint all_models (variables : list string) : outcome (option (list Model)) :=
  match variables with
  | [] => Ret None
  | v :: rest =>
      let* ok := is_variable v in
      let* _ := assert ok in
      match rest with
      | [] => Ret (Some [[(v, false)]; [(v, true)]])
      | _ =>
          let* tail_models := all_models rest in
          let* tail := iterate tail_models in
          Ret (Some ((fun x => dict_union x.1 x.2)
                       <$> list_prod [[(v, false)]; [(v, true)]] tail))
      end
  end.

(** [truth_values] ([semantics.py], lines 115-138) *)
Fixpoint truth_values_loop (formula : Formula) (models : list Model)
  : outcome (list bool) :=
  match models with
  | [] => Ret []
  | model :: models' =>
      let* b := evaluate formula model in
      let* lst := truth_values_loop formula models' in
      Ret ((if b then true else false) :: lst)
  end.

Definition truth_values (formula : Formula) (models : option (list Model))
  : outcome (list bool) :=
  let* ms := iterate models in
  truth_values_loop formula ms.

(** ** Classifiers ([semantics.py], lines 174-220)

    [list(formula.variables())] lists a Python set, in an order the language
    leaves open: [set_order] is that order, any listing of the set without
    repetition. *)

Section Classifiers.

Variable set_order : Formula -> list string.

Fixpoint tautology_loop (formula : Formula) (models : list Model)
  : outcome bool :=
  match models with
  | [] => Ret true
  | model :: models' =>
      let* b := evaluate formula model in
      if negb b then Ret false else tautology_loop formula models'
  end.

Definition is_tautology (formula : Formula) : outcome bool :=
  let* models := all_models (set_order formula) in
  match models with
  | None | Some [] => evaluate formula [("p", true)]
  | Some ms => tautology_loop formula ms
  end.

Definition is_contradiction (formula : Formula) : outcome bool :=
  let* negation := Formula_init "~" (Some formula) None in
  let* t := is_tautology negation in
  if t then Ret true else Ret false.

Definition is_satisfiable (formula : Formula) : outcome bool :=
  let* c := is_contradiction formula in
  if c then Ret false else Ret true.

End Classifiers.

(** ** Synthesis ([semantics.py], lines 223-360) *)

Fixpoint mapM {A B} (f : A -> outcome B) (l : list A) : outcome (list B) :=
  match l with
  | [] => Ret []
  | x :: l' =>
      let* y := f x in
      let* ys := mapM f l' in
      Ret (y :: ys)
  end.

Fixpoint foldM {A B} (f : B -> A -> outcome B) (l : list A) (b : B)
  : outcome B :=
  match l with
  | [] => Ret b
  | x :: l' => let* b' := f b x in foldM f l' b'
  end.

(** [formula = items[0]; for item in items[1:]: formula = Formula(op, formula, item)] *)
Definition join (op : string) (items : list Formula) : outcome Formula :=
  match items with
  | [] => Raise IndexError
  | formula :: rest =>
      foldM (fun formula item => Formula_init op (Some formula) (Some item))
            rest formula
  end.

Definition positive (variable : string) : outcome Formula :=
  Formula_init variable None None.

Definition negative (variable : string) : outcome Formula :=
  let* a := Formula_init variable None None in
  Formula_init "~" (Some a) None.

Definition _synthesize_for_model (model : Model) : outcome Formula :=
  let* m := is_model model in
  let* _ := assert m in
  let* _ := assert (0 <? length (model.*1))%nat in
  let keys := model.*1 in
  let* clauses :=
    mapM (fun key =>
            let* b := dict_get model key in
            if b then positive key else negative key) keys in
  join "&" clauses.

(** The loop over [enumerate(values)]; the state is [(ands, has_true)]. *)
Fixpoint synthesize_loop (models : option (list Model)) (values : list bool)
    (ind : nat) (state : list Formula * bool) : outcome (list Formula * bool) :=
  match values with
  | [] => Ret state
  | flag :: values' =>
      if flag then
        let* model := subscript models ind in
        let* clause := _synthesize_for_model model in
        synthesize_loop models values' (S ind) (state.1 ++ [clause], true)
      else synthesize_loop models values' (S ind) state
  end.

Definition synthesize (variables : list string) (values : list bool)
  : outcome Formula :=
  let* _ := assert (0 <? length variables)%nat in
  let* models := all_models variables in
  let* (ands, has_true) := synthesize_loop models values 0 ([], false) in
  let* ands :=
    if negb has_true then
      let* more :=
        mapM (fun variable =>
                let* a := positive variable in
                let* b := negative variable in
                Formula_init "&" (Some a) (Some b)) variables in
      Ret (ands ++ more)
    else Ret ands in
  join "|" ands.

Definition _synthesize_for_all_except_model (model : Model) : outcome Formula :=
  let* m := is_model model in
  let* _ := assert m in
  let* _ := assert (0 <? length (model.*1))%nat in
  let* literals :=
    mapM (fun item : string * bool =>
            if item.2 then negative item.1 else positive item.1) model in
  join "|" literals.

(** The loop of [synthesize_cnf]; the state is [(clauses, has_false)]. *)
Fixpoint synthesize_cnf_loop (models : option (list Model)) (values : list bool)
    (ind : nat) (state : list Formula * bool) : outcome (list Formula * bool) :=
  match values with
  | [] => Ret state
  | flag :: values' =>
      if negb flag then
        let* model := subscript models ind in
        let* clause := _synthesize_for_all_except_model model in
        synthesize_cnf_loop models values' (S ind) (state.1 ++ [clause], true)
      else synthesize_cnf_loop models values' (S ind) state
  end.

Definition synthesize_cnf (variables : list string) (values : list bool)
  : outcome Formula :=
  let* _ := assert (0 <? length variables)%nat in
  let* models := all_models variables in
  let* (clauses, has_false) :=
    synthesize_cnf_loop models values 0 ([], false) in
  let* clauses :=
    if negb has_false then
      let* more :=
        mapM (fun variable =>
                let* a := positive variable in
                let* b := negative variable in
                Formula_init "|" (Some a) (Some b)) variables in
      Ret (clauses ++ more)
    else Ret clauses in
  join "&" clauses.

(** * Definitions used to state the properties

    What the specification says of the code, in its own terms, and the
    measures and invariants of the proofs. *)

(** [model.get(key)], the lookup without the exception *)
Fixpoint assoc (model : Model) (key : string) : option bool :=
  match model with
  | [] => None
  | (k, v) :: model' => if str_eq k key then Some v else assoc model' key
  end.

(** The truth value the specification gives a formula, node by node. *)
Fixpoint truth (formula : Formula) (model : Model) : bool :=
  match formula with
  | Atom root =>
      match is_variable root with
      | Ret true => default false (assoc model root)
      | _ => str_eq root "T"
      end
  | Unary _ first => negb (truth first model)
  | Binary root first second =>
      if str_eq root "|" then truth first model || truth second model
      else if str_eq root "&" then truth first model && truth second model
      else implb (truth first model) (truth second model)
  end.

Definition sufficient (model : Model) (formula : Formula) : Prop :=
  variables formula ⊆ list_to_set (model.*1).

(** A list of variable names, as [all_models] asserts it. *)
Definition variable_names (vs : list string) : Prop :=
  Forall (fun v => is_variable v = Ret true) vs.

(** The rows of a truth table over [vs], first name slowest. *)
Fixpoint assignments (vs : list string) : list Model :=
  match vs with
  | [] => [[]]
  | v :: vs' =>
      (cons (v, false) <$> assignments vs')
      ++ (cons (v, true) <$> assignments vs')
  end.

(** Row [i] of the binary counter over [vs]: the first name reads the most
    significant of the [length vs] low bits of [i]. *)
Fixpoint bits (n i : nat) : list bool :=
  match n with
  | O => []
  | S n' => Nat.testbit i n' :: bits n' i
  end.

Definition counter_model (vs : list string) (i : nat) : Model :=
  zip vs (bits (length vs) i).

(** [items] joined from the left under one binary operator. *)
Definition chain (op : string) (item : Formula) (items : list Formula) : Formula :=
  fold_left (Binary op) items item.

Definition contradiction_of (v : string) : Formula :=
  Binary "&" (Atom v) (Unary "~" (Atom v)).

(** What [synthesize] builds on a table without a true row. *)
Definition disjoined_contradictions (vs : list string) : option Formula :=
  match vs with
  | [] => None
  | v :: vs' => Some (chain "|" (contradiction_of v) (contradiction_of <$> vs'))
  end.

(** The conjunction of the same clauses. *)
Definition conjoined_contradictions (vs : list string) : option Formula :=
  match vs with
  | [] => None
  | v :: vs' => Some (chain "&" (contradiction_of v) (contradiction_of <$> vs'))
  end.

Definition exactly_one (a b c : bool) : Prop :=
  (a = true /\ b = false /\ c = false) \/
  (a = false /\ b = true /\ c = false) \/
  (a = false /\ b = false /\ c = true).

(** The value [is_tautology] returns: the formula has no variable and is
    true under [{'p': True}], or it is true in every row of its table. *)
Definition tautology_value (set_order : Formula -> list string)
    (formula : Formula) : bool :=
  match set_order formula with
  | [] => truth formula [("p", true)]
  | vs => forallb (fun m => truth formula m) (assignments vs)
  end.

(** The rows of [ms] at which [values] holds [flag]. *)
Fixpoint pick {A} (flag : bool) (values : list bool) (ms : list A) : list A :=
  match values, ms with
  | b :: values', m :: ms' =>
      if Bool.eqb b flag then m :: pick flag values' ms'
      else pick flag values' ms'
  | _, _ => []
  end.

(** The literal of a binding, and its dual. *)
Definition literal (item : string * bool) : Formula :=
  if item.2 then Atom item.1 else Unary "~" (Atom item.1).

Definition dual_literal (item : string * bool) : Formula :=
  if item.2 then Unary "~" (Atom item.1) else Atom item.1.

(** The clause of a non-empty row: its literals joined from the left. *)
Definition row_clause (op : string) (lit : string * bool -> Formula)
    (m : Model) : Formula :=
  match m with
  | [] => Atom "F"
  | item :: rest => chain op (lit item) (lit <$> rest)
  end.

(** [m'] gives every name of [m] the value [m] gives it. *)
Definition matches (m m' : Model) : bool :=
  forallb (fun item => Bool.eqb (default false (assoc m' item.1)) item.2) m.

Definition tautology_of (v : string) : Formula :=
  Binary "|" (Atom v) (Unary "~" (Atom v)).

(** What [synthesize_cnf] builds on a table without a false row. *)
Definition conjoined_tautologies (vs : list string) : option Formula :=
  match vs with
  | [] => None
  | v :: vs' => Some (chain "&" (tautology_of v) (tautology_of <$> vs'))
  end.

(** The formula [synth] returns for the table, evaluated in each model of
    [all_models], in order, gives the table back. *)
Definition reproduces (synth : list string -> list bool -> outcome Formula)
    (vs : list string) (values : list bool) : Prop :=
  exists formula,
    synth vs values = Ret formula /\
    (let* models := all_models vs in truth_values formula models) = Ret values.

(** Opening minus closing parentheses. *)
Definition char_depth (c : ascii) : Z :=
  if char_eq c "(" then 1 else if char_eq c ")" then -1 else 0.

Fixpoint depth (s : string) : Z :=
  match s with
  | "" => 0
  | String c s' => char_depth c + depth s'
  end.

(** Nesting of a formula: the recursion depth its parse needs. *)
Fixpoint height (f : Formula) : nat :=
  match f with
  | Atom _ => 0
  | Unary _ first => S (height first)
  | Binary _ first second => S (Nat.max (height first) (height second))
  end.

(** What may follow a rendered formula inside a rendered formula: nothing,
    or a character that is neither a digit nor a parenthesis. *)
Definition follows (r : string) : bool :=
  match r with
  | "" => true
  | String c _ =>
      negb (char_isdecimal c) && negb (char_eq c "(") && negb (char_eq c ")")
  end.

(** Strings without parentheses. *)
Fixpoint plain (s : string) : Prop :=
  match s with
  | "" => True
  | String c s' => char_depth c = 0%Z /\ plain s'
  end.

(** * More of the code

    The other methods of [Formula] and the validation of
    [substitute_operators]. *)

(** [__eq__] and [__ne__] ([syntax.py], lines 164-186); [other] is [None]
    for an object that is not a [Formula]. *)
Definition Formula_eq (self : Formula) (other : option Formula) : bool :=
  match other with
  | None => false
  | Some g => str_eq (repr self) (repr g)
  end.

Definition Formula_ne (self : Formula) (other : option Formula) : bool :=
  negb (Formula_eq self other).

(** [operators] ([syntax.py], lines 208-224) *)
Fixpoint operators (f : Formula) : gset string :=
  match f with
  | Atom root =>
      match is_variable root with
      | Ret true => ∅
      | _ => {[ root ]}
      end
  | Unary root first => {[ root ]} ∪ operators first
  | Binary root first second =>
      {[ root ]} ∪ (operators first ∪ operators second)
  end.

(** [polish] ([syntax.py], lines 305-318) *)
Fixpoint polish (f : Formula) : string :=
  match f with
  | Atom root => root
  | Unary root first => root +:+ polish first
  | Binary root first second => root +:+ polish first +:+ polish second
  end.

(** [substitute_operators] ([syntax.py], lines 357-385): the loop checks each
    key and its template, and the body ends there. *)
Fixpoint check_operator_keys (substitution_map : list (string * Formula))
    (keys : list string) : outcome unit :=
  match keys with
  | [] => Ret tt
  | operator :: keys' =>
      let* _ := assert (is_constant operator || is_unary operator
                        || is_binary operator) in
      let* template := dict_get substitution_map operator in
      let* _ := assert (bool_decide (variables template ⊆ {[ "p"; "q" ]})) in
      check_operator_keys substitution_map keys'
  end.

Definition substitute_operators (self : Formula)
    (substitution_map : list (string * Formula)) : outcome (option Formula) :=
  let* _ := check_operator_keys substitution_map (substitution_map.*1) in
  Ret None.

(** * Properties *)

(** ** Outcomes *)

Lemma bind_Ret {A B} (m : outcome A) (k : A -> outcome B) (b : B) :
  bind m k = Ret b -> exists a, m = Ret a /\ k a = Ret b.
Proof. destruct m; simpl; intros H; try discriminate. eauto. Qed.

Lemma str_eq_true (a b : string) : str_eq a b = true <-> a = b.
Proof. unfold str_eq. apply bool_decide_eq_true. Qed.

Lemma str_eq_refl (a : string) : str_eq a a = true.
Proof. apply str_eq_true. reflexivity. Qed.

Lemma is_binary_cases (s : string) :
  is_binary s = true -> s = "&" \/ s = "|" \/ s = "->".
Proof.
  unfold is_binary. rewrite !orb_true_iff, !str_eq_true. tauto.
Qed.

Lemma is_unary_eq (s : string) : is_unary s = true -> s = "~".
Proof. unfold is_unary. apply str_eq_true. Qed.

(** ** The evaluator *)

Lemma dict_get_assoc (model : Model) (key : string) :
  dict_get model key =
  match assoc model key with Some v => Ret v | None => Raise KeyError end.
Proof.
  induction model as [|[k v] model IH]; simpl; [reflexivity|].
  destruct (str_eq k key); [reflexivity | exact IH].
Qed.

Lemma assoc_is_Some (model : Model) (key : string) :
  key ∈ model.*1 -> is_Some (assoc model key).
Proof.
  induction model as [|[k v] model IH]; simpl; intros Hin.
  - inversion Hin.
  - destruct (str_eq k key) eqn:E; [eauto|].
    apply IH. apply elem_of_cons in Hin as [->|Hin]; [|exact Hin].
    rewrite str_eq_refl in E. discriminate.
Qed.

Lemma sufficient_decide (model : Model) (formula : Formula) :
  bool_decide (variables formula ⊆ list_to_set (model.*1)) = true ->
  sufficient model formula.
Proof. apply bool_decide_eq_true_1. Qed.

Lemma evaluate_eq (formula : Formula) (model : Model) :
  is_model model = Ret true ->
  sufficient model formula ->
  evaluate formula model =
  match formula with
  | Atom root =>
      let* v := is_variable root in
      if v then dict_get model root
      else if is_constant root then
        if str_eq root "T" then Ret true else Ret false
      else Raise AssertionError
  | Unary _ first =>
      let* a := evaluate first model in Ret (negb a)
  | Binary root first second =>
      if str_eq root "|" then
        let* a := evaluate first model in
        if a then Ret true else evaluate second model
      else if str_eq root "&" then
        let* a := evaluate first model in
        if a then evaluate second model else Ret false
      else if str_eq root "->" then
        let* a := evaluate first model in
        if negb a then Ret true else evaluate second model
      else Raise AssertionError
  end.
Proof.
  intros Hm Hs. unfold sufficient in Hs.
  destruct formula; simpl; unfold model_variables; rewrite Hm; simpl;
    rewrite bool_decide_eq_true_2 by exact Hs; reflexivity.
Qed.

Lemma sufficient_Unary model root first :
  sufficient model (Unary root first) -> sufficient model first.
Proof. unfold sufficient. simpl. auto. Qed.

Lemma sufficient_Binary model root first second :
  sufficient model (Binary root first second) ->
  sufficient model first /\ sufficient model second.
Proof. unfold sufficient. simpl. set_solver. Qed.

Lemma evaluate_truth (formula : Formula) (model : Model) :
  wf formula = true ->
  is_model model = Ret true ->
  sufficient model formula ->
  evaluate formula model = Ret (truth formula model).
Proof.
  intros Hwf Hm. induction formula as [root|root first IH|root first IH1 second IH2];
    intros Hs; rewrite (evaluate_eq _ _ Hm Hs).
  - simpl in *. destruct (is_variable root) as [v| |] eqn:Ev; try discriminate.
    simpl. destruct v; simpl in *.
    + rewrite dict_get_assoc.
      destruct (assoc_is_Some model root) as [b Hb].
      { apply (elem_of_list_to_set (C := gset string)). apply Hs.
        unfold variables. rewrite Ev. set_solver. }
      rewrite Hb. reflexivity.
    + rewrite Hwf. destruct (str_eq root "T"); reflexivity.
  - simpl in *. apply andb_true_iff in Hwf as [_ Hwf].
    rewrite (IH Hwf (sufficient_Unary _ _ _ Hs)). reflexivity.
  - simpl in Hwf. apply andb_true_iff in Hwf as [Hwf Hw2].
    apply andb_true_iff in Hwf as [Hb Hw1].
    apply sufficient_Binary in Hs as [Hs1 Hs2].
    rewrite (IH1 Hw1 Hs1), (IH2 Hw2 Hs2). simpl.
    destruct (is_binary_cases _ Hb) as [->|[->| ->]]; simpl;
      destruct (truth first model); reflexivity.
Qed.

Lemma truth_agree (formula : Formula) (m1 m2 : Model) :
  (forall v, v ∈ variables formula -> assoc m1 v = assoc m2 v) ->
  truth formula m1 = truth formula m2.
Proof.
  induction formula as [root|root first IH|root first IH1 second IH2];
    simpl; intros Hag.
  - destruct (is_variable root) as [[|]| |] eqn:Ev; try reflexivity.
    rewrite Hag; [reflexivity | set_solver].
  - rewrite IH; auto.
  - rewrite IH1, IH2; [reflexivity | |]; intros v Hv; apply Hag; set_solver.
Qed.

(** C9: on a formula and a valid model sufficient for it, [evaluate] returns a
    truth value, and that value is the one the node prescribes: the value the
    model binds to a variable, true for [T] and false for [F], the negation
    of the operand's value under [~], and the conjunction, disjunction and
    material implication of the operands' values under [&], [|] and [->]. *)
Theorem evaluate_by_node (formula : Formula) (model : Model) :
  wf formula = true ->
  is_model model = Ret true ->
  sufficient model formula ->
  exists b, evaluate formula model = Ret b /\
    match formula with
    | Atom root =>
        (is_variable root = Ret true -> dict_get model root = Ret b) /\
        (root = "T" -> b = true) /\ (root = "F" -> b = false)
    | Unary _ first =>
        exists a, evaluate first model = Ret a /\ b = negb a
    | Binary root first second =>
        exists a c, evaluate first model = Ret a /\
                    evaluate second model = Ret c /\
          (root = "&" -> b = a && c) /\
          (root = "|" -> b = a || c) /\
          (root = "->" -> (b = false <-> a = true /\ c = false))
    end.
Proof.
  intros Hwf Hm Hs. exists (truth formula model).
  split; [apply evaluate_truth; assumption|].
  destruct formula as [root|root first|root first second].
  - pose proof (evaluate_truth _ _ Hwf Hm Hs) as He.
    rewrite (evaluate_eq _ _ Hm Hs) in He. repeat split.
    + intros Ev. rewrite Ev in He. exact He.
    + intros ->. reflexivity.
    + intros ->. reflexivity.
  - simpl in Hwf. apply andb_true_iff in Hwf as [_ Hwf].
    exists (truth first model). split; [|reflexivity].
    apply evaluate_truth; eauto using sufficient_Unary.
  - simpl in Hwf. apply andb_true_iff in Hwf as [Hwf Hw2].
    apply andb_true_iff in Hwf as [_ Hw1].
    apply sufficient_Binary in Hs as [Hs1 Hs2].
    exists (truth first model), (truth second model).
    split; [apply evaluate_truth; assumption|].
    split; [apply evaluate_truth; assumption|].
    split; [intros ->; reflexivity|].
    split; [intros ->; reflexivity|].
    intros ->. simpl.
    destruct (truth first model), (truth second model); simpl;
      intuition discriminate.
Qed.

Lemma evaluate_by_node_witness :
  let formula := Unary "~" (Binary "&" (Atom "p") (Atom "q76")) in
  let model := [("p", true); ("q76", false)] in
  exists b, evaluate formula model = Ret b /\
    exists a, evaluate (Binary "&" (Atom "p") (Atom "q76")) model = Ret a /\
              b = negb a.
Proof.
  intros formula model.
  apply (evaluate_by_node formula model).
  - reflexivity.
  - reflexivity.
  - apply sufficient_decide. vm_compute. reflexivity.
Defined.

(** C10: two valid models that are both sufficient for a formula and give the
    same value to each of its variables give the formula the same value,
    whatever else they bind. *)
Theorem evaluate_agree (formula : Formula) (m1 m2 : Model) :
  wf formula = true ->
  is_model m1 = Ret true ->
  is_model m2 = Ret true ->
  sufficient m1 formula ->
  sufficient m2 formula ->
  (forall v, v ∈ variables formula -> dict_get m1 v = dict_get m2 v) ->
  evaluate formula m1 = evaluate formula m2.
Proof.
  intros Hwf H1 H2 S1 S2 Hag.
  rewrite !evaluate_truth by assumption. f_equal.
  apply truth_agree. intros v Hv.
  specialize (Hag v Hv). rewrite !dict_get_assoc in Hag.
  destruct (assoc_is_Some m1 v) as [x Hx].
  { apply (elem_of_list_to_set (C := gset string)). apply S1, Hv. }
  destruct (assoc_is_Some m2 v) as [y Hy].
  { apply (elem_of_list_to_set (C := gset string)). apply S2, Hv. }
  rewrite Hx, Hy in *. congruence.
Qed.

Lemma evaluate_agree_witness :
  evaluate (Unary "~" (Binary "&" (Atom "p") (Atom "q76")))
           [("p", true); ("q76", false)] =
  evaluate (Unary "~" (Binary "&" (Atom "p") (Atom "q76")))
           [("r", true); ("q76", false); ("s9", false); ("p", true)].
Proof.
  apply evaluate_agree.
  - reflexivity.
  - reflexivity.
  - reflexivity.
  - apply sufficient_decide. vm_compute. reflexivity.
  - apply sufficient_decide. vm_compute. reflexivity.
  - intros v Hv. simpl in Hv.
    assert (v = "p" \/ v = "q76") as [-> | ->] by set_solver; reflexivity.
Defined.

(** ** Parsing a malformed string *)

(** C3 fails on the code: after a [~] whose operand does not parse, and inside
    a parenthesis that opens with a binary operator, [_parse_prefix] builds a
    node from [None] and the assertion of [__init__] escapes. *)
Theorem parse_prefix_assertion_escapes (fuel : nat) :
  _parse_prefix (S (S fuel)) "~&" = Raise AssertionError /\
  is_formula (S (S fuel)) "~&" = Raise AssertionError /\
  _parse_prefix (S (S fuel)) "(&q)" = Raise AssertionError /\
  is_formula (S (S fuel)) "(&q)" = Raise AssertionError.
Proof. repeat split; reflexivity. Qed.

(** ** Substitution *)

(** C4 fails on the code: [substitute_variables] never returns a formula; on
    the example of its own docstring it returns [None]. *)
Theorem substitute_variables_returns_None :
  (forall self substitution_map formula,
      substitute_variables self substitution_map <> Ret (Some formula)) /\
  substitute_variables
    (Binary "|" (Binary "->" (Atom "p") (Atom "p")) (Atom "r"))
    [("p", Binary "&" (Atom "q") (Atom "r")); ("r", Atom "p")] = Ret None.
Proof.
  split; [|reflexivity].
  intros self substitution_map formula. unfold substitute_variables.
  destruct (check_substitution_keys _); simpl; congruence.
Qed.

(** ** Model enumeration *)

(** C7 fails on the code: on the empty list [all_models] returns [None], which
    is no sequence: taking the truth values of a formula over it is a
    [TypeError]. *)
Theorem all_models_nil_is_None :
  all_models [] = Ret None /\
  all_models [] <> Ret (Some []) /\
  forall formula,
    (let* models := all_models [] in truth_values formula models)
    = Raise TypeError.
Proof.
  split; [reflexivity|]. split; [discriminate|]. intros formula. reflexivity.
Qed.

Lemma dict_set_fresh {V} (a : list (string * V)) (k : string) (v : V) :
  k ∉ a.*1 -> dict_set a k v = a ++ [(k, v)].
Proof.
  induction a as [|[k' v'] a IH]; simpl; intros Hk; [reflexivity|].
  apply not_elem_of_cons in Hk as [Hne Hk].
  destruct (str_eq k' k) eqn:E.
  - apply str_eq_true in E. congruence.
  - rewrite IH by exact Hk. reflexivity.
Qed.

Lemma dict_union_fresh {V} (b a : list (string * V)) :
  NoDup (a.*1 ++ b.*1) -> dict_union a b = a ++ b.
Proof.
  unfold dict_union. revert a.
  induction b as [|[k v] b IH]; simpl; intros a Hnd.
  - rewrite app_nil_r. reflexivity.
  - rewrite dict_set_fresh.
    + rewrite IH.
      * rewrite <- app_assoc. reflexivity.
      * rewrite fmap_app, <- app_assoc. exact Hnd.
    + apply NoDup_app in Hnd as (_ & Hd & _). intros Hin.
      apply (Hd k Hin). left.
Qed.

Lemma assignments_keys (vs : list string) (m : Model) :
  m ∈ assignments vs -> m.*1 = vs.
Proof.
  revert m. induction vs as [|v vs IH]; simpl; intros m Hm.
  - apply list_elem_of_singleton in Hm. subst. reflexivity.
  - apply elem_of_app in Hm as [Hm|Hm];
      apply list_elem_of_fmap in Hm as (m' & -> & Hm');
      rewrite fmap_cons, (IH _ Hm'); reflexivity.
Qed.

Lemma assignments_total (vs : list string) (m : Model) :
  m.*1 = vs -> m ∈ assignments vs.
Proof.
  revert m. induction vs as [|v vs IH]; intros m Hm.
  - destruct m; [left | discriminate].
  - destruct m as [|[k b] m]; [discriminate|]. simpl in Hm.
    injection Hm as -> Hm. simpl. apply elem_of_app.
    destruct b; [right | left]; apply list_elem_of_fmap;
      exists m; split; auto.
Qed.

Lemma assignments_length (vs : list string) :
  length (assignments vs) = 2 ^ length vs.
Proof.
  induction vs as [|v vs IH]; [reflexivity|].
  cbn [assignments length].
  rewrite length_app, !length_fmap, IH, Nat.pow_succ_r'. lia.
Qed.

Lemma assignments_NoDup (vs : list string) : NoDup (assignments vs).
Proof.
  induction vs as [|v vs IH]; simpl.
  - apply NoDup_singleton.
  - apply NoDup_app. split; [|split].
    + apply NoDup_fmap_2_strong; [|exact IH]. intros x y _ _ H. congruence.
    + intros m H1 H2.
      apply list_elem_of_fmap in H1 as (m1 & -> & _).
      apply list_elem_of_fmap in H2 as (m2 & H2 & _). discriminate.
    + apply NoDup_fmap_2_strong; [|exact IH]. intros x y _ _ H. congruence.
Qed.

Lemma list_prod_two {A B} (x y : A) (l : list B) :
  list_prod [x; y] l = (pair x <$> l) ++ (pair y <$> l).
Proof. cbn [list_prod]. rewrite app_nil_r. reflexivity. Qed.

Lemma all_models_assignments (vs : list string) :
  vs <> [] -> NoDup vs -> variable_names vs ->
  all_models vs = Ret (Some (assignments vs)).
Proof.
  induction vs as [|v vs IH]; intros Hne Hnd Hvar; [congruence|].
  apply NoDup_cons in Hnd as [Hv Hnd].
  apply Forall_cons in Hvar as [Hvv Hvar].
  cbn [all_models]. rewrite Hvv. cbn [bind assert].
  destruct vs as [|w vs]; [reflexivity|].
  rewrite IH by (assumption || discriminate). cbn [bind iterate].
  f_equal. f_equal. rewrite list_prod_two, fmap_app, <- !list_fmap_compose.
  change (assignments (v :: w :: vs))
    with ((cons (v, false) <$> assignments (w :: vs))
          ++ (cons (v, true) <$> assignments (w :: vs))).
  f_equal; apply list_fmap_ext; intros i m Hm; cbn [compose fst snd];
    apply list_elem_of_lookup_2, assignments_keys in Hm;
    apply (dict_union_fresh m [_]);
    cbn [fmap list_fmap fst app]; change (list_fmap _ _ fst m) with (m.*1);
    rewrite Hm; apply NoDup_cons; split; auto;
    apply NoDup_cons; split; auto.
Qed.

Lemma testbit_below (n i : nat) : i < 2 ^ n -> Nat.testbit i n = false.
Proof.
  intros H. apply Nat.testbit_false. rewrite Nat.div_small by exact H.
  reflexivity.
Qed.

Lemma testbit_top (n j : nat) :
  j < 2 ^ n -> Nat.testbit (2 ^ n + j) n = true.
Proof.
  intros H. apply Nat.testbit_true.
  replace (2 ^ n + j) with (1 * 2 ^ n + j) by lia.
  rewrite Nat.div_add_l by (apply Nat.pow_nonzero; lia).
  rewrite (Nat.div_small j) by exact H. reflexivity.
Qed.

Lemma testbit_under (n j k : nat) :
  k < n -> Nat.testbit (2 ^ n + j) k = Nat.testbit j k.
Proof.
  intros H. rewrite !Nat.testbit_eqb. f_equal.
  replace n with (S (n - S k) + k) by lia.
  rewrite Nat.pow_add_r, Nat.div_add_l by (apply Nat.pow_nonzero; lia).
  rewrite Nat.pow_succ_r', (Nat.mul_comm 2), Nat.add_comm.
  apply Nat.Div0.mod_add.
Qed.

Lemma bits_under (n m j : nat) : m <= n -> bits m (2 ^ n + j) = bits m j.
Proof.
  induction m as [|m IH]; simpl; intros H; [reflexivity|].
  rewrite testbit_under by lia. rewrite IH by lia. reflexivity.
Qed.

Lemma assignments_counter (vs : list string) :
  assignments vs = counter_model vs <$> seq 0 (2 ^ length vs).
Proof.
  induction vs as [|v vs IH]; [reflexivity|].
  cbn [assignments length]. rewrite IH.
  replace (2 ^ S (length vs)) with (2 ^ length vs + 2 ^ length vs)
    by (rewrite Nat.pow_succ_r'; lia).
  rewrite seq_app, fmap_app, <- !list_fmap_compose. f_equal.
  - apply list_fmap_ext. intros k i Hi.
    apply lookup_seq in Hi as [-> Hi].
    unfold counter_model. cbn [compose length bits zip zip_with].
    rewrite testbit_below by lia. reflexivity.
  - replace (seq (0 + 2 ^ length vs) (2 ^ length vs))
      with (Nat.add (2 ^ length vs) <$> seq 0 (2 ^ length vs))
      by (rewrite fmap_add_seq; f_equal; lia).
    rewrite <- list_fmap_compose.
    apply list_fmap_ext. intros k i Hi.
    apply lookup_seq in Hi as [-> Hi].
    unfold counter_model. cbn [compose length bits zip zip_with].
    rewrite testbit_top by lia. rewrite bits_under by lia. reflexivity.
Qed.

(** C5: on a non-empty list of distinct variable names, [all_models] returns
    the [2 ^ n] total assignments over the names, each once, row [i] being
    row [i] of the binary counter whose most significant bit is the first
    name and in which false comes before true; and the two examples. *)
Theorem all_models_counter_order :
  (forall vs : list string,
     vs <> [] -> NoDup vs -> variable_names vs ->
     exists models : list Model,
       all_models vs = Ret (Some models) /\
       length models = 2 ^ length vs /\
       (forall i, i < 2 ^ length vs -> models !! i = Some (counter_model vs i)) /\
       (forall m : Model, m.*1 = vs <-> m ∈ models) /\
       NoDup models) /\
  all_models ["p"; "q"] =
    Ret (Some [[("p", false); ("q", false)]; [("p", false); ("q", true)];
               [("p", true); ("q", false)]; [("p", true); ("q", true)]]) /\
  all_models ["q"; "p"] =
    Ret (Some [[("q", false); ("p", false)]; [("q", false); ("p", true)];
               [("q", true); ("p", false)]; [("q", true); ("p", true)]]).
Proof.
  split; [|split; reflexivity].
  intros vs Hne Hnd Hvar. exists (assignments vs).
  split; [apply all_models_assignments; assumption|].
  split; [apply assignments_length|].
  split; [|split].
  - intros i Hi. rewrite assignments_counter.
    rewrite list_lookup_fmap, lookup_seq_lt by exact Hi. reflexivity.
  - intros m. split; [apply assignments_total | apply assignments_keys].
  - apply assignments_NoDup.
Qed.

Lemma all_models_counter_order_witness :
  exists models : list Model,
    all_models ["x"; "y1"; "z"] = Ret (Some models) /\
    length models = 8 /\
    (forall i, i < 8 -> models !! i = Some (counter_model ["x"; "y1"; "z"] i)) /\
    (forall m : Model, m.*1 = ["x"; "y1"; "z"] <-> m ∈ models) /\
    NoDup models.
Proof.
  apply (proj1 all_models_counter_order ["x"; "y1"; "z"]).
  - discriminate.
  - apply (bool_decide_eq_true_1 (NoDup ["x"; "y1"; "z"])). reflexivity.
  - repeat constructor.
Defined.

(** ** Building formulas *)

Lemma positive_Ret (v : string) :
  is_variable v = Ret true -> positive v = Ret (Atom v).
Proof. intros H. unfold positive, Formula_init. rewrite H. reflexivity. Qed.

Lemma negative_Ret (v : string) :
  is_variable v = Ret true -> negative v = Ret (Unary "~" (Atom v)).
Proof. intros H. unfold negative. fold (positive v). rewrite positive_Ret by exact H. reflexivity. Qed.

Lemma mapM_Ret {A B} (f : A -> outcome B) (g : A -> B) (l : list A) :
  (forall x, x ∈ l -> f x = Ret (g x)) -> mapM f l = Ret (g <$> l).
Proof.
  induction l as [|x l IH]; intros H; [reflexivity|].
  cbn [mapM]. rewrite H by left. cbn [bind].
  rewrite IH; [reflexivity|]. intros y Hy. apply H. right. exact Hy.
Qed.

Lemma join_Ret (op : string) (item : Formula) (items : list Formula) :
  op = "&" \/ op = "|" -> join op (item :: items) = Ret (chain op item items).
Proof.
  intros Hop. unfold join, chain. revert item.
  induction items as [|c items IH]; intros item; [reflexivity|].
  cbn [foldM fold_left].
  replace (Formula_init op (Some item) (Some c)) with (Ret (Binary op item c))
    by (destruct Hop as [-> | ->]; reflexivity).
  apply IH.
Qed.

Lemma wf_chain (op : string) (item : Formula) (items : list Formula) :
  is_binary op = true -> wf item = true -> Forall (fun c => wf c = true) items ->
  wf (chain op item items) = true.
Proof.
  intros Hop. unfold chain. revert item.
  induction items as [|c items IH]; intros item Hw Hall; [exact Hw|].
  apply Forall_cons in Hall as [Hc Hall]. cbn [fold_left].
  apply IH; [|exact Hall]. simpl. rewrite Hop, Hw, Hc. reflexivity.
Qed.

Lemma variables_chain (op : string) (item : Formula) (items : list Formula) v :
  v ∈ variables (chain op item items) <->
  exists c, c ∈ item :: items /\ v ∈ variables c.
Proof.
  unfold chain. revert item.
  induction items as [|c items IH]; intros item; cbn [fold_left].
  - split; [intros H; exists item; split; [left|exact H]|].
    intros (c & Hc & Hv). apply list_elem_of_singleton in Hc. subst. exact Hv.
  - rewrite IH. split.
    + intros (d & Hd & Hv). apply elem_of_cons in Hd as [-> | Hd].
      * simpl in Hv. apply elem_of_union in Hv as [Hv|Hv].
        -- exists item. split; [left | exact Hv].
        -- exists c. split; [right; left | exact Hv].
      * exists d. split; [right; right; exact Hd | exact Hv].
    + intros (d & Hd & Hv). apply elem_of_cons in Hd as [-> | Hd].
      * exists (Binary op item c). split; [left|]. simpl.
        apply elem_of_union. left. exact Hv.
      * apply elem_of_cons in Hd as [-> | Hd].
        -- exists (Binary op item c). split; [left|]. simpl.
           apply elem_of_union. right. exact Hv.
        -- exists d. split; [right; exact Hd | exact Hv].
Qed.

Lemma truth_chain_or (item : Formula) (items : list Formula) (m : Model) :
  truth (chain "|" item items) m = existsb (fun c => truth c m) (item :: items).
Proof.
  unfold chain. revert item.
  induction items as [|c items IH]; intros item; cbn [fold_left].
  - simpl. rewrite orb_false_r. reflexivity.
  - rewrite IH. simpl. rewrite orb_assoc. reflexivity.
Qed.

Lemma truth_chain_and (item : Formula) (items : list Formula) (m : Model) :
  truth (chain "&" item items) m = forallb (fun c => truth c m) (item :: items).
Proof.
  unfold chain. revert item.
  induction items as [|c items IH]; intros item; cbn [fold_left].
  - simpl. rewrite andb_true_r. reflexivity.
  - rewrite IH. simpl. rewrite andb_assoc. reflexivity.
Qed.

Lemma all_models_Some (vs : list string) :
  vs <> [] -> variable_names vs -> exists ms, all_models vs = Ret (Some ms).
Proof.
  induction vs as [|v vs IH]; intros Hne Hvar; [congruence|].
  apply Forall_cons in Hvar as [Hv Hvar].
  cbn [all_models]. rewrite Hv. cbn [bind assert].
  destruct vs as [|w vs]; [eauto|].
  destruct IH as [ms ->]; [discriminate | exact Hvar |].
  cbn [bind iterate]. eauto.
Qed.

(** ** The all-false table *)

Lemma synthesize_loop_all_false models values ind state :
  (forall b, b ∈ values -> b = false) ->
  synthesize_loop models values ind state = Ret state.
Proof.
  revert ind. induction values as [|b values IH]; intros ind H; [reflexivity|].
  cbn [synthesize_loop]. rewrite (H b) by left.
  apply IH. intros c Hc. apply H. right. exact Hc.
Qed.

Lemma wf_contradiction_of (v : string) :
  is_variable v = Ret true -> wf (contradiction_of v) = true.
Proof. intros H. simpl. rewrite H. reflexivity. Qed.

Lemma variables_contradiction_of (v : string) :
  is_variable v = Ret true -> variables (contradiction_of v) = {[ v ]}.
Proof. intros H. simpl. rewrite H. apply union_idemp_L. Qed.

Lemma truth_contradiction_of (v : string) (m : Model) :
  truth (contradiction_of v) m = false.
Proof.
  simpl. destruct (is_variable v) as [[|]| |]; simpl;
    try (destruct (str_eq v "T"); reflexivity).
  destruct (default false (assoc m v)); reflexivity.
Qed.

Lemma synthesize_no_true_row (vs : list string) (values : list bool) :
  vs <> [] -> variable_names vs ->
  (forall b, b ∈ values -> b = false) ->
  exists formula,
    synthesize vs values = Ret formula /\
    disjoined_contradictions vs = Some formula.
Proof.
  intros Hne Hvar Hall. unfold synthesize.
  destruct vs as [|v vs]; [congruence|]. cbn [length Nat.ltb Nat.leb assert bind].
  destruct (all_models_Some (v :: vs) Hne Hvar) as [ms ->]. cbn [bind].
  rewrite synthesize_loop_all_false by exact Hall. cbn [bind negb].
  rewrite (mapM_Ret _ contradiction_of).
  - cbn [bind app fmap list_fmap]. rewrite join_Ret by (right; reflexivity).
    eexists. split; reflexivity.
  - intros x Hx. unfold variable_names in Hvar. rewrite Forall_forall in Hvar.
    rewrite positive_Ret, negative_Ret by (apply Hvar, Hx).
    reflexivity.
Qed.

Lemma disjoined_contradictions_facts (vs : list string) (formula : Formula) :
  variable_names vs ->
  disjoined_contradictions vs = Some formula ->
  wf formula = true /\
  (forall m, truth formula m = false) /\
  variables formula = list_to_set vs.
Proof.
  intros Hvar Hd. destruct vs as [|v vs]; [discriminate|]. injection Hd as <-.
  unfold variable_names in Hvar. pose proof Hvar as Hall.
  rewrite Forall_forall in Hall.
  apply Forall_cons in Hvar as [Hv Hvar].
  split; [|split].
  - apply wf_chain; [reflexivity | apply wf_contradiction_of, Hv |].
    apply Forall_fmap. eapply Forall_impl; [exact Hvar|].
    intros x Hx. apply wf_contradiction_of, Hx.
  - intros m. rewrite truth_chain_or. apply not_true_is_false. intros Hex.
    apply existsb_exists in Hex as (c & Hc & Ht).
    change (contradiction_of v :: (contradiction_of <$> vs))
      with (contradiction_of <$> v :: vs) in Hc.
    apply list_elem_of_In, list_elem_of_fmap in Hc as (x & -> & _).
    rewrite truth_contradiction_of in Ht. discriminate.
  - apply set_eq. intros x. rewrite variables_chain.
    change (contradiction_of v :: (contradiction_of <$> vs))
      with (contradiction_of <$> v :: vs).
    rewrite elem_of_list_to_set. split.
    + intros (c & Hc & Hx). apply list_elem_of_fmap in Hc as (y & -> & Hy).
      rewrite variables_contradiction_of in Hx by (apply Hall, Hy).
      apply elem_of_singleton in Hx. subst. exact Hy.
    + intros Hx. exists (contradiction_of x). split.
      * apply list_elem_of_fmap. eauto.
      * rewrite variables_contradiction_of by (apply Hall, Hx).
        apply elem_of_singleton. reflexivity.
Qed.

(** C6, as the code has it: on a non-empty list of variable names and a table
    without a true row, [synthesize] returns the clauses [(v&~v)], one for
    each name in list order, joined from the left by [|]: a disjunction, not
    a conjunction. The formula is false in every model and its variables are
    the names of the list. *)
Theorem synthesize_all_false (vs : list string) (values : list bool) :
  vs <> [] -> variable_names vs ->
  (forall b, b ∈ values -> b = false) ->
  exists formula,
    synthesize vs values = Ret formula /\
    disjoined_contradictions vs = Some formula /\
    (forall model, is_model model = Ret true -> sufficient model formula ->
                   evaluate formula model = Ret false) /\
    variables formula = list_to_set vs.
Proof.
  intros Hne Hvar Hall.
  destruct (synthesize_no_true_row vs values Hne Hvar Hall) as (formula & Hs & Hd).
  destruct (disjoined_contradictions_facts vs formula Hvar Hd) as (Hwf & Ht & Hv).
  exists formula. split; [exact Hs|]. split; [exact Hd|]. split; [|exact Hv].
  intros model Hm Hsuf. rewrite evaluate_truth by assumption.
  rewrite Ht. reflexivity.
Qed.

Lemma synthesize_all_false_witness :
  exists formula,
    synthesize ["p"; "q"] [false; false; false; false] = Ret formula /\
    disjoined_contradictions ["p"; "q"] = Some formula /\
    (forall model, is_model model = Ret true -> sufficient model formula ->
                   evaluate formula model = Ret false) /\
    variables formula = list_to_set ["p"; "q"].
Proof.
  apply (synthesize_all_false ["p"; "q"] [false; false; false; false]).
  - discriminate.
  - repeat constructor.
  - intros b Hb. repeat (apply elem_of_cons in Hb as [-> | Hb]; [reflexivity|]).
    inversion Hb.
Defined.

(** C6 as it is written fails: over [p] and [q] the all-false table does not
    give the conjunction of [(p&~p)] and [(q&~q)]. *)
Lemma synthesize_all_false_not_conjoined :
  ~ (exists formula,
       synthesize ["p"; "q"] [false; false; false; false] = Ret formula /\
       conjoined_contradictions ["p"; "q"] = Some formula).
Proof.
  intros (formula & Hs & Hc). vm_compute in Hs, Hc. congruence.
Qed.

(** ** Classifiers *)

Lemma variables_are_names (formula : Formula) (v : string) :
  v ∈ variables formula -> is_variable v = Ret true.
Proof.
  induction formula as [root|root first IH|root first IH1 second IH2]; simpl.
  - destruct (is_variable root) as [[|]| |] eqn:E; intros H;
      try (apply elem_of_empty in H; contradiction).
    apply elem_of_singleton in H. subst. exact E.
  - exact IH.
  - intros H. apply elem_of_union in H as [H|H]; auto.
Qed.

Lemma is_model_keys_Ret (keys : list string) :
  variable_names keys -> is_model_keys keys = Ret true.
Proof.
  induction 1 as [|k keys Hk _ IH]; [reflexivity|].
  cbn [is_model_keys]. rewrite Hk. exact IH.
Qed.

Lemma tautology_loop_truth (formula : Formula) (models : list Model) :
  wf formula = true ->
  (forall m, m ∈ models -> is_model m = Ret true /\ sufficient m formula) ->
  tautology_loop formula models =
  Ret (forallb (fun m => truth formula m) models).
Proof.
  intros Hwf. induction models as [|m models IH]; intros H; [reflexivity|].
  cbn [tautology_loop forallb].
  destruct (H m) as [Hm Hs]; [left|].
  rewrite evaluate_truth by assumption. cbn [bind].
  destruct (truth formula m); [|reflexivity].
  apply IH. intros m' Hm'. apply H. right. exact Hm'.
Qed.

(** The first row of a truth table binds every name to false. *)
Lemma assignments_head (vs : list string) :
  exists rows, assignments vs = ((fun v => (v, false)) <$> vs) :: rows.
Proof.
  induction vs as [|v vs [rows IH]]; [exists []; reflexivity|].
  cbn [assignments]. rewrite IH. cbn [fmap list_fmap app]. eauto.
Qed.

Lemma assoc_all_false (vs : list string) (v : string) :
  v ∈ vs -> assoc ((fun v => (v, false)) <$> vs) v = Some false.
Proof.
  induction vs as [|w vs IH]; intros H; [inversion H|].
  cbn [fmap list_fmap assoc]. destruct (str_eq w v) eqn:E; [reflexivity|].
  apply IH. apply elem_of_cons in H as [-> | H]; [|exact H].
  rewrite str_eq_refl in E. discriminate.
Qed.

Section ClassifierProperties.

Variable set_order : Formula -> list string.

(** [list(formula.variables())] lists the set, each name once. *)
Hypothesis set_order_lists :
  forall formula, set_order formula ≡ₚ elements (variables formula).

Lemma set_order_elem (formula : Formula) (v : string) :
  v ∈ set_order formula <-> v ∈ variables formula.
Proof. rewrite set_order_lists. apply elem_of_elements. Qed.

Lemma set_order_NoDup (formula : Formula) : NoDup (set_order formula).
Proof. rewrite set_order_lists. apply NoDup_elements. Qed.

Lemma set_order_names (formula : Formula) : variable_names (set_order formula).
Proof.
  apply Forall_forall. intros v Hv.
  apply (variables_are_names formula), set_order_elem, Hv.
Qed.

Lemma row_is_model (formula : Formula) (m : Model) :
  m ∈ assignments (set_order formula) ->
  is_model m = Ret true /\ sufficient m formula.
Proof.
  intros Hm. apply assignments_keys in Hm. unfold is_model, sufficient.
  rewrite Hm. split; [apply is_model_keys_Ret, set_order_names|].
  intros v Hv. apply elem_of_list_to_set, set_order_elem, Hv.
Qed.

Lemma is_tautology_value (formula : Formula) :
  wf formula = true ->
  is_tautology set_order formula = Ret (tautology_value set_order formula).
Proof.
  intros Hwf. unfold is_tautology, tautology_value.
  pose proof (row_is_model formula) as Hrows.
  pose proof (set_order_elem formula) as Helem.
  destruct (set_order formula) as [|v vs] eqn:E.
  - cbn [all_models bind]. apply evaluate_truth; [exact Hwf | reflexivity |].
    intros x Hx. apply Helem in Hx. inversion Hx.
  - rewrite all_models_assignments.
    + cbn [bind]. destruct (assignments_head (v :: vs)) as [rows Hr].
      rewrite Hr in *. apply tautology_loop_truth; assumption.
    + discriminate.
    + rewrite <- E. apply set_order_NoDup.
    + rewrite <- E. apply set_order_names.
Qed.

Lemma tautology_value_negation (formula : Formula) :
  tautology_value set_order formula = true ->
  tautology_value set_order (Unary "~" formula) = true -> False.
Proof.
  unfold tautology_value.
  pose proof (set_order_elem formula) as H1.
  pose proof (set_order_elem (Unary "~" formula)) as H2.
  cbn [variables] in H2.
  destruct (set_order formula) as [|v vs] eqn:E1;
    destruct (set_order (Unary "~" formula)) as [|w ws] eqn:E2.
  - cbn [truth]. destruct (truth formula [("p", true)]); discriminate.
  - exfalso. assert (Hw : w ∈ @nil string) by (apply H1, H2; left). inversion Hw.
  - exfalso. assert (Hv : v ∈ @nil string) by (apply H2, H1; left). inversion Hv.
  - destruct (assignments_head (v :: vs)) as [r1 ->].
    destruct (assignments_head (w :: ws)) as [r2 ->].
    cbn [forallb truth]. intros Ha Hb.
    apply andb_true_iff in Ha as [Ha _]. apply andb_true_iff in Hb as [Hb _].
    rewrite (truth_agree formula _ ((fun v => (v, false)) <$> w :: ws)) in Ha.
    + rewrite Ha in Hb. discriminate.
    + intros x Hx. rewrite !assoc_all_false; [reflexivity | |].
      * apply H2, Hx.
      * apply H1, Hx.
Qed.

(** C8: on every formula the three classifiers return, exactly one of
    tautology, contradiction, and satisfiable without being a tautology
    holds, [is_contradiction] is [is_tautology] of the negation, and
    [is_satisfiable] is the negation of [is_contradiction]. *)
Theorem classifiers_consistent (formula : Formula) :
  wf formula = true ->
  exists t c s,
    is_tautology set_order formula = Ret t /\
    is_contradiction set_order formula = Ret c /\
    is_satisfiable set_order formula = Ret s /\
    exactly_one t c (s && negb t) /\
    is_contradiction set_order formula
      = is_tautology set_order (Unary "~" formula) /\
    s = negb c.
Proof.
  intros Hwf.
  assert (Hwn : wf (Unary "~" formula) = true) by (simpl; exact Hwf).
  pose proof (is_tautology_value formula Hwf) as Ht.
  pose proof (is_tautology_value _ Hwn) as Hn.
  assert (Hc : is_contradiction set_order formula
               = Ret (tautology_value set_order (Unary "~" formula))).
  { unfold is_contradiction.
    change (Formula_init "~" (Some formula) None) with (Ret (Unary "~" formula)).
    cbn [bind]. rewrite Hn. cbn [bind].
    destruct (tautology_value set_order (Unary "~" formula)); reflexivity. }
  exists (tautology_value set_order formula), (tautology_value set_order (Unary "~" formula)),
         (negb (tautology_value set_order (Unary "~" formula))).
  split; [exact Ht|]. split; [exact Hc|]. split; [|split; [|split]].
  - unfold is_satisfiable. rewrite Hc. cbn [bind].
    destruct (tautology_value set_order (Unary "~" formula)); reflexivity.
  - pose proof (tautology_value_negation formula) as Hex. unfold exactly_one.
    destruct (tautology_value set_order formula), (tautology_value set_order (Unary "~" formula));
      cbn [negb andb]; auto.
    exfalso. auto.
  - rewrite Hc, Hn. reflexivity.
  - reflexivity.
Qed.

End ClassifierProperties.

Lemma classifiers_consistent_witness :
  let set_order := fun formula => elements (variables formula) in
  let formula := Binary "|" (Atom "p") (Unary "~" (Atom "p")) in
  exists t c s,
    is_tautology set_order formula = Ret t /\
    is_contradiction set_order formula = Ret c /\
    is_satisfiable set_order formula = Ret s /\
    exactly_one t c (s && negb t) /\
    is_contradiction set_order formula
      = is_tautology set_order (Unary "~" formula) /\
    s = negb c.
Proof.
  intros set_order formula.
  apply (classifiers_consistent set_order).
  - intros f. reflexivity.
  - reflexivity.
Defined.

(** ** Synthesis from a truth table *)

Lemma elem_of_pick {A} (flag : bool) (values : list bool) (ms : list A) (x : A) :
  x ∈ pick flag values ms <->
  exists j, values !! j = Some flag /\ ms !! j = Some x.
Proof.
  revert ms. induction values as [|b values IH]; intros ms.
  - simpl. split; [intros H; inversion H | intros (j & H & _); discriminate].
  - destruct ms as [|m ms].
    { simpl. split; [intros H; inversion H|].
      intros (j & _ & H). destruct j; discriminate. }
    cbn [pick]. destruct (Bool.eqb b flag) eqn:E.
    + apply eqb_prop in E. subst b. rewrite elem_of_cons, IH. split.
      * intros [-> | (j & H1 & H2)]; [exists 0 | exists (S j)]; auto.
      * intros ([|j] & H1 & H2); [left | right; exists j]; simpl in *;
          [congruence | auto].
    + rewrite IH. split.
      * intros (j & H1 & H2). exists (S j). auto.
      * intros ([|j] & H1 & H2); [|exists j; auto].
        simpl in H1. injection H1 as ->. rewrite eqb_reflx in E. discriminate.
Qed.

Lemma pick_reproduces {A} (same : A -> A -> bool) (flag : bool)
    (values : list bool) (ms : list A) :
  (forall x y, x ∈ ms -> y ∈ ms -> same x y = true <-> x = y) ->
  NoDup ms -> length values = length ms ->
  (fun y => existsb (fun x => same x y) (pick flag values ms)) <$> ms
  = (fun b => Bool.eqb b flag) <$> values.
Proof.
  intros Hsame Hnd Hlen.
  apply (list_eq_same_length _ _ (length ms));
    [rewrite length_fmap; exact Hlen | apply length_fmap|].
  intros i u w Hi Hu Hw.
  rewrite list_lookup_fmap in Hu. rewrite list_lookup_fmap in Hw.
  destruct (ms !! i) as [y|] eqn:Ey; [|discriminate].
  destruct (values !! i) as [b|] eqn:Eb; [|discriminate].
  injection Hu as <-. injection Hw as <-.
  apply eq_true_iff_eq. rewrite existsb_exists. split.
  - intros (x & Hx & Hxy). apply list_elem_of_In in Hx.
    pose proof Hx as Hp. apply elem_of_pick in Hp as (j & Hj1 & Hj2).
    apply Hsame in Hxy; [|eapply list_elem_of_lookup_2; eauto ..]. subst x.
    rewrite (NoDup_lookup _ _ _ _ Hnd Ey Hj2) in Eb.
    assert (b = flag) as -> by congruence. apply eqb_reflx.
  - intros Hb. apply eqb_prop in Hb. subst b. exists y. split.
    + apply list_elem_of_In, elem_of_pick. eauto.
    + apply Hsame; eauto using list_elem_of_lookup_2.
Qed.

Lemma assoc_NoDup (m : Model) (k : string) (b : bool) :
  NoDup (m.*1) -> (k, b) ∈ m -> assoc m k = Some b.
Proof.
  induction m as [|[k' b'] m IH]; intros Hnd Hin; [inversion Hin|].
  cbn [fmap list_fmap fst] in Hnd. apply NoDup_cons in Hnd as [Hk Hnd].
  cbn [assoc]. apply elem_of_cons in Hin as [Heq | Hin].
  - injection Heq as -> ->. rewrite str_eq_refl. reflexivity.
  - destruct (str_eq k' k) eqn:E; [|apply IH; assumption].
    apply str_eq_true in E. subst k'. exfalso. apply Hk.
    apply list_elem_of_fmap. exists (k, b). auto.
Qed.

Lemma matches_self (m : Model) : NoDup (m.*1) -> matches m m = true.
Proof.
  intros Hnd. unfold matches. apply forallb_forall. intros [k b] Hin.
  apply list_elem_of_In in Hin. cbn [fst snd].
  rewrite (assoc_NoDup m k b Hnd Hin). apply eqb_reflx.
Qed.

Lemma matches_inj (m m' : Model) :
  m.*1 = m'.*1 -> NoDup (m.*1) -> matches m m' = true -> m = m'.
Proof.
  revert m'. induction m as [|[k b] m IH]; intros [|[k' b'] m'] Hk Hnd Hm;
    try discriminate; [reflexivity|].
  cbn [fmap list_fmap fst] in Hk, Hnd. injection Hk as <- Hk.
  apply NoDup_cons in Hnd as [Hfresh Hnd].
  unfold matches in Hm. cbn [forallb assoc fst snd] in Hm.
  rewrite str_eq_refl in Hm. cbn [default] in Hm.
  apply andb_true_iff in Hm as [Hb Hm]. simpl in Hb.
  apply eqb_prop in Hb. subst b'.
  f_equal. apply IH; [exact Hk | exact Hnd |].
  unfold matches. apply forallb_forall. intros [k2 b2] Hin.
  rewrite forallb_forall in Hm. specialize (Hm _ Hin). cbn [fst snd] in *.
  destruct (str_eq k k2) eqn:E; [|exact Hm].
  apply str_eq_true in E. subst k2. exfalso. apply Hfresh.
  apply list_elem_of_fmap. exists (k, b2). split; [reflexivity|].
  apply list_elem_of_In, Hin.
Qed.

Lemma truth_literal (item : string * bool) (m' : Model) :
  is_variable item.1 = Ret true ->
  truth (literal item) m' = Bool.eqb (default false (assoc m' item.1)) item.2.
Proof.
  intros H. destruct item as [k [|]]; unfold literal; cbn [fst snd truth] in *;
    rewrite H; destruct (default false (assoc m' k)); reflexivity.
Qed.

Lemma truth_dual_literal (item : string * bool) (m' : Model) :
  is_variable item.1 = Ret true ->
  truth (dual_literal item) m'
  = negb (Bool.eqb (default false (assoc m' item.1)) item.2).
Proof.
  intros H. destruct item as [k [|]]; unfold dual_literal;
    cbn [fst snd truth] in *;
    rewrite H; destruct (default false (assoc m' k)); reflexivity.
Qed.

Lemma truth_row_conjunction (m m' : Model) :
  m <> [] -> variable_names (m.*1) ->
  truth (row_clause "&" literal m) m' = matches m m'.
Proof.
  intros Hne Hvar. destruct m as [|item rest]; [congruence|].
  unfold row_clause, matches. rewrite truth_chain_and.
  change (literal item :: (literal <$> rest)) with (literal <$> item :: rest).
  unfold variable_names in Hvar. rewrite Forall_fmap in Hvar. clear Hne.
  induction Hvar as [|x l Hx _ IH]; [reflexivity|].
  cbn [fmap list_fmap forallb]. rewrite truth_literal by exact Hx.
  f_equal. exact IH.
Qed.

Lemma truth_row_disjunction (m m' : Model) :
  m <> [] -> variable_names (m.*1) ->
  truth (row_clause "|" dual_literal m) m' = negb (matches m m').
Proof.
  intros Hne Hvar. destruct m as [|item rest]; [congruence|].
  unfold row_clause, matches. rewrite truth_chain_or.
  change (dual_literal item :: (dual_literal <$> rest))
    with (dual_literal <$> item :: rest).
  unfold variable_names in Hvar. rewrite Forall_fmap in Hvar. clear Hne.
  induction Hvar as [|x l Hx _ IH]; [reflexivity|].
  cbn [fmap list_fmap forallb existsb]. rewrite truth_dual_literal by exact Hx.
  rewrite negb_andb. f_equal. exact IH.
Qed.

Lemma wf_literal (item : string * bool) :
  is_variable item.1 = Ret true -> wf (literal item) = true.
Proof.
  intros H. destruct item as [k [|]]; unfold literal; cbn [fst snd wf] in *;
    rewrite H; reflexivity.
Qed.

Lemma wf_dual_literal (item : string * bool) :
  is_variable item.1 = Ret true -> wf (dual_literal item) = true.
Proof.
  intros H. destruct item as [k [|]]; unfold dual_literal; cbn [fst snd wf] in *;
    rewrite H; reflexivity.
Qed.

Lemma variables_literal (item : string * bool) (v : string) :
  v ∈ variables (literal item) -> v = item.1.
Proof.
  destruct item as [k [|]]; unfold literal; cbn [fst snd variables];
    destruct (is_variable k) as [[|]| |]; intros H;
    try (apply elem_of_empty in H; contradiction);
    apply elem_of_singleton in H; exact H.
Qed.

Lemma variables_dual_literal (item : string * bool) (v : string) :
  v ∈ variables (dual_literal item) -> v = item.1.
Proof.
  destruct item as [k [|]]; unfold dual_literal; cbn [fst snd variables];
    destruct (is_variable k) as [[|]| |]; intros H;
    try (apply elem_of_empty in H; contradiction);
    apply elem_of_singleton in H; exact H.
Qed.

Lemma wf_row_clause (op : string) (lit : string * bool -> Formula) (m : Model) :
  is_binary op = true -> m <> [] ->
  (forall item, item ∈ m -> wf (lit item) = true) ->
  wf (row_clause op lit m) = true.
Proof.
  intros Hop Hne Hlit. destruct m as [|item rest]; [congruence|].
  unfold row_clause. apply wf_chain; [exact Hop | apply Hlit; left |].
  apply Forall_fmap, Forall_forall. intros x Hx. apply Hlit. right. exact Hx.
Qed.

Lemma variables_row_clause (op : string) (lit : string * bool -> Formula)
    (m : Model) (v : string) :
  m <> [] ->
  (forall item w, w ∈ variables (lit item) -> w = item.1) ->
  v ∈ variables (row_clause op lit m) -> v ∈ m.*1.
Proof.
  intros Hne Hlit. destruct m as [|item rest]; [congruence|].
  unfold row_clause. rewrite variables_chain. intros (c & Hc & Hv).
  change (lit item :: (lit <$> rest)) with (lit <$> item :: rest) in Hc.
  apply list_elem_of_fmap in Hc as (x & -> & Hx).
  apply Hlit in Hv. subst v. apply list_elem_of_fmap. eauto.
Qed.

Lemma synthesize_for_model_Ret (m : Model) :
  m <> [] -> NoDup (m.*1) -> variable_names (m.*1) ->
  _synthesize_for_model m = Ret (row_clause "&" literal m).
Proof.
  intros Hne Hnd Hvar. unfold _synthesize_for_model, is_model.
  rewrite is_model_keys_Ret by exact Hvar. cbn [bind assert].
  rewrite length_fmap. destruct m as [|item rest]; [congruence|].
  cbn [length Nat.ltb Nat.leb assert bind].
  rewrite (mapM_Ret _
             (fun key => literal (key, default false (assoc (item :: rest) key)))).
  - cbn [bind]. rewrite <- list_fmap_compose.
    rewrite (list_fmap_ext _ literal (item :: rest)).
    + apply join_Ret. left. reflexivity.
    + intros i [k b] Hi. cbn [compose fst].
      rewrite (assoc_NoDup _ k b Hnd) by (eapply list_elem_of_lookup_2, Hi).
      reflexivity.
  - intros key Hkey. rewrite dict_get_assoc.
    apply list_elem_of_fmap in Hkey as ([k b] & -> & Hin). cbn [fst].
    rewrite (assoc_NoDup _ k b Hnd Hin). cbn [bind default].
    unfold variable_names in Hvar. rewrite Forall_forall in Hvar.
    assert (Hk : is_variable k = Ret true).
    { apply Hvar. apply list_elem_of_fmap. exists (k, b). auto. }
    destruct b; [apply positive_Ret | apply negative_Ret]; exact Hk.
Qed.

Lemma synthesize_for_all_except_model_Ret (m : Model) :
  m <> [] -> variable_names (m.*1) ->
  _synthesize_for_all_except_model m = Ret (row_clause "|" dual_literal m).
Proof.
  intros Hne Hvar. unfold _synthesize_for_all_except_model, is_model.
  rewrite is_model_keys_Ret by exact Hvar. cbn [bind assert].
  rewrite length_fmap. destruct m as [|item rest]; [congruence|].
  cbn [length Nat.ltb Nat.leb assert bind].
  rewrite (mapM_Ret _ dual_literal).
  - cbn [bind]. apply join_Ret. right. reflexivity.
  - intros [k b] Hin. cbn [fst snd].
    unfold variable_names in Hvar. rewrite Forall_forall in Hvar.
    assert (Hk : is_variable k = Ret true).
    { apply Hvar. apply list_elem_of_fmap. exists (k, b). auto. }
    destruct b; [apply negative_Ret | apply positive_Ret]; exact Hk.
Qed.

Lemma subscript_drop {A} (all : list A) (ind : nat) (m : A) (ms : list A) :
  drop ind all = m :: ms ->
  subscript (Some all) ind = Ret m /\ drop (S ind) all = ms.
Proof.
  intros Hd. unfold subscript. cbn [iterate bind].
  assert (Hl : all !! ind = Some m).
  { rewrite <- (Nat.add_0_r ind), <- lookup_drop, Hd. reflexivity. }
  rewrite Hl. split; [reflexivity|].
  rewrite (drop_S _ _ _ Hl) in Hd. congruence.
Qed.

Lemma synthesize_loop_pick (all : list Model) (clause : Model -> Formula)
    (values : list bool) :
  forall (ms : list Model) (ind : nat) (state : list Formula * bool),
    drop ind all = ms -> length values <= length ms ->
    (forall m, m ∈ ms -> _synthesize_for_model m = Ret (clause m)) ->
    synthesize_loop (Some all) values ind state
    = Ret (state.1 ++ (clause <$> pick true values ms),
           state.2 || existsb (fun b => Bool.eqb b true) values).
Proof.
  induction values as [|flag values IH]; intros ms ind state Hd Hlen Hcl.
  - cbn [synthesize_loop pick fmap list_fmap existsb].
    rewrite app_nil_r, orb_false_r. destruct state; reflexivity.
  - destruct ms as [|m ms]; [simpl in Hlen; lia|].
    destruct (subscript_drop _ _ _ _ Hd) as [Hsub Hd'].
    cbn [synthesize_loop pick existsb]. destruct flag; cbn [Bool.eqb].
    + rewrite Hsub. cbn [bind]. rewrite Hcl by left. cbn [bind].
      rewrite (IH ms (S ind)); [| exact Hd' | simpl in Hlen; lia |].
      * cbn [fst snd fmap list_fmap orb]. rewrite <- app_assoc, orb_true_r.
        reflexivity.
      * intros m' Hm'. apply Hcl. right. exact Hm'.
    + rewrite (IH ms (S ind)); [| exact Hd' | simpl in Hlen; lia |].
      * reflexivity.
      * intros m' Hm'. apply Hcl. right. exact Hm'.
Qed.

Lemma synthesize_cnf_loop_pick (all : list Model) (clause : Model -> Formula)
    (values : list bool) :
  forall (ms : list Model) (ind : nat) (state : list Formula * bool),
    drop ind all = ms -> length values <= length ms ->
    (forall m, m ∈ ms -> _synthesize_for_all_except_model m = Ret (clause m)) ->
    synthesize_cnf_loop (Some all) values ind state
    = Ret (state.1 ++ (clause <$> pick false values ms),
           state.2 || existsb (fun b => Bool.eqb b false) values).
Proof.
  induction values as [|flag values IH]; intros ms ind state Hd Hlen Hcl.
  - cbn [synthesize_cnf_loop pick fmap list_fmap existsb].
    rewrite app_nil_r, orb_false_r. destruct state; reflexivity.
  - destruct ms as [|m ms]; [simpl in Hlen; lia|].
    destruct (subscript_drop _ _ _ _ Hd) as [Hsub Hd'].
    cbn [synthesize_cnf_loop pick existsb]. destruct flag; cbn [Bool.eqb negb].
    + rewrite (IH ms (S ind)); [| exact Hd' | simpl in Hlen; lia |].
      * reflexivity.
      * intros m' Hm'. apply Hcl. right. exact Hm'.
    + rewrite Hsub. cbn [bind]. rewrite Hcl by left. cbn [bind].
      rewrite (IH ms (S ind)); [| exact Hd' | simpl in Hlen; lia |].
      * cbn [fst snd fmap list_fmap orb]. rewrite <- app_assoc, orb_true_r.
        reflexivity.
      * intros m' Hm'. apply Hcl. right. exact Hm'.
Qed.

Lemma pick_nonempty {A} (flag : bool) (values : list bool) (ms : list A) :
  length values <= length ms ->
  existsb (fun b => Bool.eqb b flag) values = true ->
  pick flag values ms <> [].
Proof.
  revert ms. induction values as [|b values IH]; intros ms Hlen Hex;
    [discriminate|].
  destruct ms as [|m ms]; [simpl in Hlen; lia|].
  cbn [pick existsb] in *. destruct (Bool.eqb b flag); [discriminate|].
  apply IH; [simpl in Hlen; lia | exact Hex].
Qed.

Lemma pick_empty {A} (flag : bool) (values : list bool) (ms : list A) :
  existsb (fun b => Bool.eqb b flag) values = false ->
  pick flag values ms = [].
Proof.
  revert ms. induction values as [|b values IH]; intros ms Hex; [reflexivity|].
  destruct ms as [|m ms]; [reflexivity|].
  cbn [pick existsb] in *. apply orb_false_iff in Hex as [-> Hex]. auto.
Qed.

Lemma truth_values_loop_truth (formula : Formula) (models : list Model) :
  wf formula = true ->
  (forall m, m ∈ models -> is_model m = Ret true /\ sufficient m formula) ->
  truth_values_loop formula models = Ret ((fun m => truth formula m) <$> models).
Proof.
  intros Hwf. induction models as [|m models IH]; intros H; [reflexivity|].
  cbn [truth_values_loop]. destruct (H m) as [Hm Hs]; [left|].
  rewrite evaluate_truth by assumption. cbn [bind].
  rewrite IH by (intros m' Hm'; apply H; right; exact Hm').
  cbn [bind fmap list_fmap].
  destruct (truth formula m); reflexivity.
Qed.

(** ** The all-true table *)

Lemma wf_tautology_of (v : string) :
  is_variable v = Ret true -> wf (tautology_of v) = true.
Proof. intros H. simpl. rewrite H. reflexivity. Qed.

Lemma variables_tautology_of (v : string) :
  is_variable v = Ret true -> variables (tautology_of v) = {[ v ]}.
Proof. intros H. simpl. rewrite H. apply union_idemp_L. Qed.

Lemma truth_tautology_of (v : string) (m : Model) :
  truth (tautology_of v) m = true.
Proof.
  simpl. destruct (is_variable v) as [[|]| |]; simpl;
    try (destruct (str_eq v "T"); reflexivity).
  destruct (default false (assoc m v)); reflexivity.
Qed.

Lemma synthesize_cnf_loop_all_true models values ind state :
  (forall b, b ∈ values -> b = true) ->
  synthesize_cnf_loop models values ind state = Ret state.
Proof.
  revert ind. induction values as [|b values IH]; intros ind H; [reflexivity|].
  cbn [synthesize_cnf_loop]. rewrite (H b) by left.
  apply IH. intros c Hc. apply H. right. exact Hc.
Qed.

Lemma synthesize_cnf_no_false_row (vs : list string) (values : list bool) :
  vs <> [] -> variable_names vs ->
  (forall b, b ∈ values -> b = true) ->
  exists formula,
    synthesize_cnf vs values = Ret formula /\
    conjoined_tautologies vs = Some formula.
Proof.
  intros Hne Hvar Hall. unfold synthesize_cnf.
  destruct vs as [|v vs]; [congruence|]. cbn [length Nat.ltb Nat.leb assert bind].
  destruct (all_models_Some (v :: vs) Hne Hvar) as [ms ->]. cbn [bind].
  rewrite synthesize_cnf_loop_all_true by exact Hall. cbn [bind negb].
  rewrite (mapM_Ret _ tautology_of).
  - cbn [bind app fmap list_fmap]. rewrite join_Ret by (left; reflexivity).
    eexists. split; reflexivity.
  - intros x Hx. unfold variable_names in Hvar. rewrite Forall_forall in Hvar.
    rewrite positive_Ret, negative_Ret by (apply Hvar, Hx).
    reflexivity.
Qed.

Lemma conjoined_tautologies_facts (vs : list string) (formula : Formula) :
  variable_names vs ->
  conjoined_tautologies vs = Some formula ->
  wf formula = true /\
  (forall m, truth formula m = true) /\
  variables formula = list_to_set vs.
Proof.
  intros Hvar Hd. destruct vs as [|v vs]; [discriminate|]. injection Hd as <-.
  unfold variable_names in Hvar. pose proof Hvar as Hall.
  rewrite Forall_forall in Hall.
  apply Forall_cons in Hvar as [Hv Hvar].
  split; [|split].
  - apply wf_chain; [reflexivity | apply wf_tautology_of, Hv |].
    apply Forall_fmap. eapply Forall_impl; [exact Hvar|].
    intros x Hx. apply wf_tautology_of, Hx.
  - intros m. rewrite truth_chain_and. apply forallb_forall. intros c Hc.
    change (tautology_of v :: (tautology_of <$> vs))
      with (tautology_of <$> v :: vs) in Hc.
    apply list_elem_of_In, list_elem_of_fmap in Hc as (x & -> & _).
    apply truth_tautology_of.
  - apply set_eq. intros x. rewrite variables_chain.
    change (tautology_of v :: (tautology_of <$> vs))
      with (tautology_of <$> v :: vs).
    rewrite elem_of_list_to_set. split.
    + intros (c & Hc & Hx). apply list_elem_of_fmap in Hc as (y & -> & Hy).
      rewrite variables_tautology_of in Hx by (apply Hall, Hy).
      apply elem_of_singleton in Hx. subst. exact Hy.
    + intros Hx. exists (tautology_of x). split.
      * apply list_elem_of_fmap. eauto.
      * rewrite variables_tautology_of by (apply Hall, Hx).
        apply elem_of_singleton. reflexivity.
Qed.

(** ** The synthesized formula has the given truth table *)

Lemma existsb_fmap_ext {A B} (f : B -> bool) (g : A -> B) (h : A -> bool)
    (l : list A) :
  (forall x, x ∈ l -> f (g x) = h x) -> existsb f (g <$> l) = existsb h l.
Proof.
  induction l as [|x l IH]; intros H; [reflexivity|].
  cbn [fmap list_fmap existsb]. rewrite H by left. f_equal.
  apply IH. intros y Hy. apply H. right. exact Hy.
Qed.

Lemma forallb_fmap_ext {A B} (f : B -> bool) (g : A -> B) (h : A -> bool)
    (l : list A) :
  (forall x, x ∈ l -> f (g x) = h x) -> forallb f (g <$> l) = forallb h l.
Proof.
  induction l as [|x l IH]; intros H; [reflexivity|].
  cbn [fmap list_fmap forallb]. rewrite H by left. f_equal.
  apply IH. intros y Hy. apply H. right. exact Hy.
Qed.

Lemma forallb_negb_existsb {A} (h : A -> bool) (l : list A) :
  forallb (fun x => negb (h x)) l = negb (existsb h l).
Proof.
  induction l as [|x l IH]; [reflexivity|].
  cbn [forallb existsb]. rewrite IH, negb_orb. reflexivity.
Qed.

Lemma pick_subset {A} (flag : bool) (values : list bool) (ms : list A) (x : A) :
  x ∈ pick flag values ms -> x ∈ ms.
Proof.
  intros H. apply elem_of_pick in H as (j & _ & H).
  eapply list_elem_of_lookup_2, H.
Qed.

Section Rows.

Variable vs : list string.
Hypothesis vs_nonempty : vs <> [].
Hypothesis vs_NoDup : NoDup vs.
Hypothesis vs_names : variable_names vs.

Lemma row_nonempty (m : Model) : m ∈ assignments vs -> m <> [].
Proof.
  intros Hm. apply assignments_keys in Hm. intros ->. apply vs_nonempty.
  symmetry. exact Hm.
Qed.

Lemma row_NoDup (m : Model) : m ∈ assignments vs -> NoDup (m.*1).
Proof. intros Hm. rewrite (assignments_keys _ _ Hm). exact vs_NoDup. Qed.

Lemma row_names (m : Model) : m ∈ assignments vs -> variable_names (m.*1).
Proof. intros Hm. rewrite (assignments_keys _ _ Hm). exact vs_names. Qed.

Lemma row_valid (m : Model) : m ∈ assignments vs -> is_model m = Ret true.
Proof. intros Hm. apply is_model_keys_Ret, row_names, Hm. Qed.

Lemma rows_matches (x y : Model) :
  x ∈ assignments vs -> y ∈ assignments vs -> matches x y = true <-> x = y.
Proof.
  intros Hx Hy. split.
  - apply matches_inj; [|apply row_NoDup, Hx].
    rewrite (assignments_keys _ _ Hx), (assignments_keys _ _ Hy). reflexivity.
  - intros <-. apply matches_self, row_NoDup, Hx.
Qed.

(** The truth values of a formula over the variables of the table, taken
    over the rows of the table. *)
Lemma truth_values_rows (formula : Formula) :
  wf formula = true ->
  (forall v, v ∈ variables formula -> v ∈ vs) ->
  (let* models := all_models vs in truth_values formula models)
  = Ret ((fun m => truth formula m) <$> assignments vs).
Proof.
  intros Hwf Hsub. rewrite all_models_assignments by assumption.
  cbn [bind truth_values iterate].
  apply truth_values_loop_truth; [exact Hwf|].
  intros m Hm. split; [apply row_valid, Hm|].
  intros v Hv. apply elem_of_list_to_set.
  rewrite (assignments_keys _ _ Hm). apply Hsub, Hv.
Qed.

Lemma synthesize_truth (values : list bool) :
  length values = 2 ^ length vs ->
  exists formula,
    synthesize vs values = Ret formula /\
    wf formula = true /\
    (forall v, v ∈ variables formula -> v ∈ vs) /\
    forall m', truth formula m'
               = existsb (fun m => matches m m')
                         (pick true values (assignments vs)).
Proof.
  intros Hlen. rewrite <- assignments_length in Hlen.
  destruct (existsb (fun b => Bool.eqb b true) values) eqn:E.
  - pose proof (pick_nonempty true values (assignments vs)
                  ltac:(rewrite Hlen; reflexivity) E) as Hne.
    unfold synthesize.
    replace (0 <? length vs)%nat with true
      by (destruct vs; [congruence | reflexivity]).
    cbn [assert bind]. rewrite all_models_assignments by assumption.
    cbn [bind].
    rewrite (synthesize_loop_pick (assignments vs) (row_clause "&" literal)
               values (assignments vs) 0 ([], false)).
    + rewrite E. cbn [fst snd app orb bind negb].
      pose proof (pick_subset true values (assignments vs)) as Hsub.
      destruct (pick true values (assignments vs)) as [|m0 rest];
        [congruence|].
      cbn [fmap list_fmap]. rewrite join_Ret by (right; reflexivity).
      eexists. split; [reflexivity|]. split; [|split].
      * apply wf_chain; [reflexivity | |].
        -- apply wf_row_clause; [reflexivity | apply row_nonempty, Hsub; left |].
           intros [k b] Hk. apply wf_literal. cbn [fst].
           pose proof (row_names m0 (Hsub _ ltac:(left))) as Hn.
           unfold variable_names in Hn. rewrite Forall_forall in Hn.
           apply Hn. apply list_elem_of_fmap. exists (k, b). auto.
        -- apply Forall_fmap, Forall_forall. intros m Hm. cbn [compose].
           assert (Hrow : m ∈ assignments vs) by (apply Hsub; right; exact Hm).
           apply wf_row_clause; [reflexivity | apply row_nonempty, Hrow |].
           intros [k b] Hk. apply wf_literal. cbn [fst].
           pose proof (row_names m Hrow) as Hn.
           unfold variable_names in Hn. rewrite Forall_forall in Hn.
           apply Hn. apply list_elem_of_fmap. exists (k, b). auto.
      * intros v Hv. apply variables_chain in Hv as (c & Hc & Hv).
        change (row_clause "&" literal m0 :: (row_clause "&" literal <$> rest))
          with (row_clause "&" literal <$> m0 :: rest) in Hc.
        apply list_elem_of_fmap in Hc as (m & -> & Hm).
        apply variables_row_clause in Hv.
        -- rewrite (assignments_keys vs m) in Hv by (apply Hsub, Hm). exact Hv.
        -- apply row_nonempty, Hsub, Hm.
        -- intros item w. apply variables_literal.
      * intros m'. rewrite truth_chain_or.
        change (row_clause "&" literal m0 :: (row_clause "&" literal <$> rest))
          with (row_clause "&" literal <$> m0 :: rest).
        apply existsb_fmap_ext. intros m Hm.
        apply truth_row_conjunction; [apply row_nonempty | apply row_names];
          apply Hsub, Hm.
    + reflexivity.
    + rewrite Hlen. reflexivity.
    + intros m Hm. apply synthesize_for_model_Ret;
        [apply row_nonempty | apply row_NoDup | apply row_names]; exact Hm.
  - assert (Hall : forall b, b ∈ values -> b = false).
    { intros b Hb. destruct b; [|reflexivity].
      assert (existsb (fun b => Bool.eqb b true) values = true); [|congruence].
      apply existsb_exists. exists true. split; [|reflexivity].
      apply list_elem_of_In, Hb. }
    destruct (synthesize_no_true_row vs values vs_nonempty vs_names Hall)
      as (formula & Hs & Hd).
    destruct (disjoined_contradictions_facts vs formula vs_names Hd)
      as (Hwf & Ht & Hv).
    exists formula. split; [exact Hs|]. split; [exact Hwf|]. split.
    + intros v Hin. rewrite Hv in Hin. apply elem_of_list_to_set in Hin.
      exact Hin.
    + intros m'. rewrite Ht, (pick_empty true) by exact E. reflexivity.
Qed.

Lemma synthesize_cnf_truth (values : list bool) :
  length values = 2 ^ length vs ->
  exists formula,
    synthesize_cnf vs values = Ret formula /\
    wf formula = true /\
    (forall v, v ∈ variables formula -> v ∈ vs) /\
    forall m', truth formula m'
               = negb (existsb (fun m => matches m m')
                               (pick false values (assignments vs))).
Proof.
  intros Hlen. rewrite <- assignments_length in Hlen.
  destruct (existsb (fun b => Bool.eqb b false) values) eqn:E.
  - pose proof (pick_nonempty false values (assignments vs)
                  ltac:(rewrite Hlen; reflexivity) E) as Hne.
    unfold synthesize_cnf.
    replace (0 <? length vs)%nat with true
      by (destruct vs; [congruence | reflexivity]).
    cbn [assert bind]. rewrite all_models_assignments by assumption.
    cbn [bind].
    rewrite (synthesize_cnf_loop_pick (assignments vs)
               (row_clause "|" dual_literal)
               values (assignments vs) 0 ([], false)).
    + rewrite E. cbn [fst snd app orb bind negb].
      pose proof (pick_subset false values (assignments vs)) as Hsub.
      destruct (pick false values (assignments vs)) as [|m0 rest];
        [congruence|].
      cbn [fmap list_fmap]. rewrite join_Ret by (left; reflexivity).
      eexists. split; [reflexivity|]. split; [|split].
      * apply wf_chain; [reflexivity | |].
        -- apply wf_row_clause; [reflexivity | apply row_nonempty, Hsub; left |].
           intros [k b] Hk. apply wf_dual_literal. cbn [fst].
           pose proof (row_names m0 (Hsub _ ltac:(left))) as Hn.
           unfold variable_names in Hn. rewrite Forall_forall in Hn.
           apply Hn. apply list_elem_of_fmap. exists (k, b). auto.
        -- apply Forall_fmap, Forall_forall. intros m Hm. cbn [compose].
           assert (Hrow : m ∈ assignments vs) by (apply Hsub; right; exact Hm).
           apply wf_row_clause; [reflexivity | apply row_nonempty, Hrow |].
           intros [k b] Hk. apply wf_dual_literal. cbn [fst].
           pose proof (row_names m Hrow) as Hn.
           unfold variable_names in Hn. rewrite Forall_forall in Hn.
           apply Hn. apply list_elem_of_fmap. exists (k, b). auto.
      * intros v Hv. apply variables_chain in Hv as (c & Hc & Hv).
        change (row_clause "|" dual_literal m0
                  :: (row_clause "|" dual_literal <$> rest))
          with (row_clause "|" dual_literal <$> m0 :: rest) in Hc.
        apply list_elem_of_fmap in Hc as (m & -> & Hm).
        apply variables_row_clause in Hv.
        -- rewrite (assignments_keys vs m) in Hv by (apply Hsub, Hm). exact Hv.
        -- apply row_nonempty, Hsub, Hm.
        -- intros item w. apply variables_dual_literal.
      * intros m'. rewrite truth_chain_and, <- forallb_negb_existsb.
        change (row_clause "|" dual_literal m0
                  :: (row_clause "|" dual_literal <$> rest))
          with (row_clause "|" dual_literal <$> m0 :: rest).
        apply forallb_fmap_ext. intros m Hm.
        apply truth_row_disjunction; [apply row_nonempty | apply row_names];
          apply Hsub, Hm.
    + reflexivity.
    + rewrite Hlen. reflexivity.
    + intros m Hm. apply synthesize_for_all_except_model_Ret;
        [apply row_nonempty | apply row_names]; exact Hm.
  - assert (Hall : forall b, b ∈ values -> b = true).
    { intros b Hb. destruct b; [reflexivity|].
      assert (existsb (fun b => Bool.eqb b false) values = true); [|congruence].
      apply existsb_exists. exists false. split; [|reflexivity].
      apply list_elem_of_In, Hb. }
    destruct (synthesize_cnf_no_false_row vs values vs_nonempty vs_names Hall)
      as (formula & Hs & Hd).
    destruct (conjoined_tautologies_facts vs formula vs_names Hd)
      as (Hwf & Ht & Hv).
    exists formula. split; [exact Hs|]. split; [exact Hwf|]. split.
    + intros v Hin. rewrite Hv in Hin. apply elem_of_list_to_set in Hin.
      exact Hin.
    + intros m'. rewrite Ht, (pick_empty false) by exact E. reflexivity.
Qed.

End Rows.

(** C1, with the names of the list distinct: for a non-empty list of distinct
    variable names and a table of [2 ^ n] truth values, the formula that
    [synthesize] returns, evaluated in each model of [all_models] in order,
    gives exactly the table, and so does the formula of [synthesize_cnf]. *)
Theorem synthesis_reproduces_table (vs : list string) (values : list bool) :
  vs <> [] -> NoDup vs -> variable_names vs ->
  length values = 2 ^ length vs ->
  reproduces synthesize vs values /\ reproduces synthesize_cnf vs values.
Proof.
  intros Hne Hnd Hvar Hlen.
  pose proof Hlen as Hlen'. rewrite <- assignments_length in Hlen'.
  split.
  - destruct (synthesize_truth vs Hne Hnd Hvar values Hlen)
      as (formula & Hs & Hwf & Hsub & Ht).
    exists formula. split; [exact Hs|].
    rewrite truth_values_rows by assumption. f_equal.
    rewrite (list_fmap_ext _
               (fun m' => existsb (fun m => matches m m')
                                  (pick true values (assignments vs))))
      by (intros i m' _; apply Ht).
    rewrite (pick_reproduces matches true values (assignments vs));
      [| apply rows_matches; assumption | apply assignments_NoDup | exact Hlen'].
    rewrite <- (list_fmap_id values) at 2. apply list_fmap_ext.
    intros i [|] _; reflexivity.
  - destruct (synthesize_cnf_truth vs Hne Hnd Hvar values Hlen)
      as (formula & Hs & Hwf & Hsub & Ht).
    exists formula. split; [exact Hs|].
    rewrite truth_values_rows by assumption. f_equal.
    rewrite (list_fmap_ext _
               (negb ∘ (fun m' => existsb (fun m => matches m m')
                                          (pick false values (assignments vs)))))
      by (intros i m' _; apply Ht).
    rewrite list_fmap_compose.
    rewrite (pick_reproduces matches false values (assignments vs));
      [| apply rows_matches; assumption | apply assignments_NoDup | exact Hlen'].
    rewrite <- list_fmap_compose.
    rewrite <- (list_fmap_id values) at 2. apply list_fmap_ext.
    intros i [|] _; reflexivity.
Qed.

Lemma synthesis_reproduces_table_witness :
  reproduces synthesize ["p"; "q"] [true; true; true; false] /\
  reproduces synthesize_cnf ["p"; "q"] [true; true; true; false].
Proof.
  apply synthesis_reproduces_table.
  - discriminate.
  - apply (bool_decide_eq_true_1 (NoDup ["p"; "q"])). reflexivity.
  - repeat constructor.
  - reflexivity.
Defined.

(** C1 as it is written fails on a list that repeats a name: over [p; p]
    the model list is [F, T, F, T], and no formula takes the values
    [T, F, F, F] on it. *)
Lemma synthesis_repeated_name :
  ~ (reproduces synthesize ["p"; "p"] [true; false; false; false] /\
     reproduces synthesize_cnf ["p"; "p"] [true; false; false; false]).
Proof.
  intros [(formula & Hs & Ht) _].
  vm_compute in Hs. injection Hs as <-. vm_compute in Ht. discriminate.
Qed.

(** ** The parser and the canonical rendering *)

#[local] Arguments String.append !_ _ / : simpl nomatch.

Lemma str_take_drop (n : nat) (s : string) : str_take n s +:+ str_drop n s = s.
Proof.
  revert s. induction n as [|n IH]; intros [|c s]; try reflexivity.
  cbn [str_take str_drop String.append]. f_equal. apply IH.
Qed.

Lemma str_app_assoc (a b c : string) : (a +:+ b) +:+ c = a +:+ (b +:+ c).
Proof. induction a as [|x a IH]; simpl; [reflexivity | rewrite IH; reflexivity]. Qed.

Lemma str_app_nil_r (a : string) : a +:+ "" = a.
Proof. induction a as [|x a IH]; simpl; [reflexivity | rewrite IH; reflexivity]. Qed.

Lemma str_length_app (a b : string) :
  String.length (a +:+ b) = String.length a + String.length b.
Proof. induction a as [|x a IH]; simpl; [reflexivity | rewrite IH; reflexivity]. Qed.

Lemma str_take_app (a b : string) : str_take (String.length a) (a +:+ b) = a.
Proof. induction a as [|x a IH]; simpl; [destruct b; reflexivity | rewrite IH; reflexivity]. Qed.

Lemma str_drop_app (a b : string) : str_drop (String.length a) (a +:+ b) = b.
Proof. induction a as [|x a IH]; simpl; [reflexivity | exact IH]. Qed.

Lemma str_app_nonempty_r (a b : string) : b <> "" -> a +:+ b <> "".
Proof. destruct a; simpl; [auto | discriminate]. Qed.

Lemma str_empty_false (s : string) : str_empty s = false -> s <> "".
Proof. destruct s; [discriminate | discriminate]. Qed.

Lemma str_empty_true (s : string) : str_empty s = true -> s = "".
Proof. destruct s; [reflexivity | discriminate]. Qed.

Lemma char_eq_true (a b : ascii) : char_eq a b = true <-> a = b.
Proof. unfold char_eq. apply bool_decide_eq_true. Qed.

(** A string splits off its last character. *)
Lemma str_last (t : string) :
  t <> "" -> exists c, t = str_take (String.length t - 1) t +:+ String c "".
Proof.
  induction t as [|x t IH]; intros Hne; [congruence|].
  destruct t as [|y t].
  - exists x. reflexivity.
  - destruct IH as [c Hc]; [discriminate|]. exists c.
    cbn [String.length] in *. replace (S (S (String.length t)) - 1)
      with (S (S (String.length t) - 1)) by lia.
    cbn [str_take String.append]. f_equal. exact Hc.
Qed.

Lemma str_inner_group (t : string) :
  str_inner (String "(" t) = str_take (String.length t - 1) t.
Proof.
  unfold str_inner. cbn [String.length str_drop]. f_equal; lia.
Qed.

Lemma depth_app (a b : string) : depth (a +:+ b) = (depth a + depth b)%Z.
Proof. induction a as [|x a IH]; simpl; [reflexivity | rewrite IH; lia]. Qed.

Lemma scan_group_depth (s : string) :
  forall ind counter ind' counter',
    scan_group s ind counter = (ind', counter') ->
    ind <= ind' /\
    counter' = (counter + depth (str_take (ind' - ind) s))%Z.
Proof.
  induction s as [|ele s IH]; intros ind counter ind' counter' H;
    cbn [scan_group] in H.
  - injection H as <- <-. rewrite Nat.sub_diag. simpl. split; lia.
  - assert (Hstep : forall k,
      scan_group s (S ind) (counter + k) = (ind', counter') ->
      char_depth ele = k ->
      ind <= ind' /\
      counter' = (counter + depth (str_take (ind' - ind) (String ele s)))%Z).
    { intros k Hk Hd. apply IH in Hk as [Hle ->]. split; [lia|].
      replace (ind' - ind) with (S (ind' - S ind)) by lia.
      cbn [str_take depth]. rewrite Hd. lia. }
    unfold char_depth in Hstep.
    destruct (char_eq ele "(") eqn:E1; [eapply Hstep; eauto|].
    destruct (char_eq ele ")") eqn:E2.
    { apply (Hstep (-1)%Z); [exact H | reflexivity]. }
    destruct (counter =? 0)%Z.
    + injection H as <- <-. rewrite Nat.sub_diag. simpl. split; lia.
    + apply (Hstep 0%Z); [rewrite Z.add_0_r; exact H | reflexivity].
Qed.

Lemma parse_str_app (s first rest : string) :
  parse_str s = Ret (first, rest) -> s = first +:+ rest.
Proof.
  unfold parse_str. destruct s as [|c s]; [discriminate|].
  cbn [str_first bind is_variable].
  destruct (char_le "p" c && char_le c "z"
            && ((String.length (String c "") =? 1)%nat || isdecimal ""));
    [intros H; injection H as <- <-; symmetry; apply str_take_drop|].
  destruct (str_eq (str_take 2 (String c s)) "->");
    [intros H; injection H as <- <-; symmetry;
     apply (str_take_drop 2 (String c s))|].
  destruct (char_eq c "("); [|intros H; injection H as <- <-; reflexivity].
  destruct (scan_group (String c s) 0 0) as [ind counter].
  destruct (negb (counter =? 0)%Z); intros H; injection H as <- <-;
    [reflexivity | symmetry; apply str_take_drop].
Qed.

(** A scanned unit that opens a parenthesis and is longer than it is
    balanced. *)
Lemma parse_str_group (s t rest : string) :
  parse_str s = Ret (String "(" t, rest) -> t <> "" ->
  depth (String "(" t) = 0%Z.
Proof.
  unfold parse_str. destruct s as [|c s]; [discriminate|].
  cbn [str_first bind is_variable].
  destruct (char_le "p" c && char_le c "z"
            && ((String.length (String c "") =? 1)%nat || isdecimal "")) eqn:Ev.
  - rewrite Nat.add_1_r. cbn [str_take]. intros H _. injection H as Hc _ _.
    subst c. vm_compute in Ev. discriminate.
  - destruct (str_eq (str_take 2 (String c s)) "->") eqn:E2.
    + apply str_eq_true in E2. rewrite E2. discriminate.
    + destruct (char_eq c "(").
      * destruct (scan_group (String c s) 0 0) as [ind counter] eqn:Es.
        apply scan_group_depth in Es as [_ Hc].
        destruct (counter =? 0)%Z eqn:E0; cbn [negb].
        -- intros H _. injection H as H _. rewrite Nat.sub_0_r, H in Hc.
           apply Z.eqb_eq in E0. lia.
        -- intros H Hne. injection H as _ <- _. congruence.
      * intros H Hne. injection H as _ <- _. congruence.
Qed.

Lemma Formula_init_Ret (root : string) (x y : option Formula) (f : Formula) :
  Formula_init root x y = Ret f ->
  match f with
  | Atom r => r = root /\ x = None /\ y = None /\ wf (Atom root) = true
  | Unary r g => r = root /\ x = Some g /\ y = None /\ is_unary root = true
  | Binary r a b =>
      r = root /\ x = Some a /\ y = Some b /\ is_binary root = true
  end.
Proof.
  unfold Formula_init. cbn [wf].
  destruct (is_variable root) as [v| |]; cbn [bind]; try discriminate.
  destruct (v || is_constant root).
  - destruct x, y; cbn; try discriminate. intros H. injection H as <-. auto.
  - destruct (is_unary root) eqn:Eu.
    + destruct x, y; try discriminate. intros H. injection H as <-. auto.
    + destruct (is_binary root) eqn:Eb; cbn [assert bind]; try discriminate.
      destruct x, y; try discriminate. intros H. injection H as <-. auto.
Qed.

Lemma char_depth_decimal (c : ascii) :
  char_isdecimal c = true -> char_depth c = 0%Z.
Proof.
  unfold char_depth. intros H.
  destruct (char_eq c "(") eqn:E1; [apply char_eq_true in E1; subst; discriminate|].
  destruct (char_eq c ")") eqn:E2; [apply char_eq_true in E2; subst; discriminate|].
  reflexivity.
Qed.

Lemma depth_all_decimal (s : string) : all_decimal s = true -> depth s = 0%Z.
Proof.
  induction s as [|c s IH]; [reflexivity|]. cbn [all_decimal depth].
  intros H. apply andb_true_iff in H as [Hc Hs].
  rewrite (char_depth_decimal c Hc), (IH Hs). reflexivity.
Qed.

Lemma is_variable_shape (root : string) :
  is_variable root = Ret true ->
  exists c tl, root = String c tl /\
    char_le "p" c = true /\ char_le c "z" = true /\ all_decimal tl = true.
Proof.
  destruct root as [|c tl]; [discriminate|]. cbn [is_variable].
  intros H. injection H as H.
  apply andb_true_iff in H as [H Htl]. apply andb_true_iff in H as [Hp Hz].
  exists c, tl. repeat split; try assumption.
  apply orb_true_iff in Htl as [Hl | Hd].
  - cbn [String.length] in Hl. apply Nat.eqb_eq in Hl.
    destruct tl; [reflexivity | discriminate].
  - unfold isdecimal in Hd. apply andb_true_iff in Hd as [_ Hd]. exact Hd.
Qed.

Lemma char_depth_letter (c : ascii) :
  char_le "p" c = true -> char_depth c = 0%Z.
Proof.
  unfold char_depth. intros H.
  destruct (char_eq c "(") eqn:E1; [apply char_eq_true in E1; subst; discriminate|].
  destruct (char_eq c ")") eqn:E2; [apply char_eq_true in E2; subst; discriminate|].
  reflexivity.
Qed.

Lemma is_constant_cases (s : string) :
  is_constant s = true -> s = "T" \/ s = "F".
Proof. unfold is_constant. rewrite orb_true_iff, !str_eq_true. tauto. Qed.

Lemma wf_Atom_cases (root : string) :
  wf (Atom root) = true ->
  is_variable root = Ret true \/
  (is_variable root = Ret false /\ (root = "T" \/ root = "F")).
Proof.
  cbn [wf]. destruct (is_variable root) as [[|]| |]; try discriminate; auto.
  cbn [orb]. intros H. right. split; [reflexivity|].
  apply is_constant_cases, H.
Qed.

Lemma depth_repr (f : Formula) : wf f = true -> depth (repr f) = 0%Z.
Proof.
  induction f as [root|root first IH|root first IH1 second IH2]; intros Hwf.
  - cbn [repr]. apply wf_Atom_cases in Hwf as [Hv | [_ [-> | ->]]];
      [|reflexivity|reflexivity].
    apply is_variable_shape in Hv as (c & tl & -> & Hp & _ & Htl).
    cbn [depth]. rewrite (char_depth_letter c Hp), (depth_all_decimal tl Htl).
    reflexivity.
  - cbn [wf] in Hwf. apply andb_true_iff in Hwf as [Hu Hwf].
    apply is_unary_eq in Hu. subst root. cbn [repr].
    rewrite depth_app, (IH Hwf). reflexivity.
  - cbn [wf] in Hwf. apply andb_true_iff in Hwf as [Hwf Hw2].
    apply andb_true_iff in Hwf as [Hb Hw1]. cbn [repr].
    rewrite !depth_app, (IH1 Hw1), (IH2 Hw2).
    destruct (is_binary_cases _ Hb) as [-> | [-> | ->]]; reflexivity.
Qed.

Lemma parse_prefix_sound (fuel : nat) :
  forall s o r,
    _parse_prefix fuel s = Ret (o, r) ->
    match o with
    | Some f => wf f = true /\ s = repr f +:+ r
    | None => r <> ""
    end.
Proof.
  induction fuel as [|fuel IH]; intros s o r H; [discriminate|].
  cbn [_parse_prefix] in H.
  destruct (str_empty s) eqn:Es.
  { injection H as <- <-. discriminate. }
  apply bind_Ret in H as ([first rest] & Hps & H).
  apply bind_Ret in H as (v & Hv & H).
  destruct (v || is_constant first) eqn:Eatom.
  { apply bind_Ret in H as (f & Hf & H). injection H as <- <-.
    apply Formula_init_Ret in Hf.
    destruct f; destruct Hf as (-> & Hx & Hy & Hw); try discriminate.
    split; [exact Hw | apply parse_str_app, Hps]. }
  destruct (is_binary first) eqn:Eb.
  { injection H as <- <-. apply str_empty_false, Es. }
  destruct (is_unary first) eqn:Eu.
  { destruct (str_empty rest) eqn:Er.
    - injection H as <- <-. apply str_app_nonempty_r. discriminate.
    - apply bind_Ret in H as ([o1 r1] & H1 & H).
      apply bind_Ret in H as (f & Hf & H).
      apply bind_Ret in H as ([o2 r2] & H2 & H). injection H as <- <-.
      rewrite H1 in H2. injection H2 as <- <-. cbn [fst snd] in *.
      apply Formula_init_Ret in Hf.
      destruct f; destruct Hf as (-> & Hx & Hy & Hw); try discriminate.
      { cbn [wf] in Hw. rewrite Hv in Hw. congruence. }
      subst o1. apply IH in H1. cbv beta iota in H1.
      destruct H1 as [Hwg Hrest]. apply parse_str_app in Hps.
      split.
      + cbn [wf]. rewrite Hw, Hwg. reflexivity.
      + cbn [repr]. rewrite str_app_assoc, <- Hrest. exact Hps. }
  apply bind_Ret in H as (c & Hc & H).
  destruct (char_eq c "(") eqn:Ec;
    [|injection H as <- <-; apply str_app_nonempty_r; discriminate].
  destruct (str_eq first "(") eqn:E1; [injection H as <- <-; discriminate|].
  apply bind_Ret in H as ([first_f _rest] & H1 & H).
  destruct (str_empty _rest) eqn:Er; [injection H as <- <-; discriminate|].
  apply bind_Ret in H as ([connective _second] & Hps2 & H).
  destruct (is_binary connective) eqn:Ebc; cbn [negb] in H;
    [|injection H as <- <-; discriminate].
  apply bind_Ret in H as ([second_f second_r] & H2 & H).
  destruct (str_empty second_r) eqn:Esr; cbn [negb] in H.
  2:{ destruct second_f; injection H as <- <-;
        repeat apply str_app_nonempty_r; discriminate. }
  apply bind_Ret in H as (f & Hf & H). injection H as <- <-.
  apply Formula_init_Ret in Hf.
  destruct f as [root|root g|root a b]; destruct Hf as (-> & Hx & Hy & Hw).
  { destruct (is_binary_cases _ Ebc) as [-> | [-> | ->]]; discriminate. }
  { destruct (is_binary_cases _ Ebc) as [-> | [-> | ->]]; discriminate. }
  subst first_f second_f.
  apply IH in H1. apply IH in H2. cbv beta iota in H1, H2.
  destruct H1 as [Hw1 Hin]. destruct H2 as [Hw2 Hsec].
  apply str_empty_true in Esr. subst second_r. rewrite str_app_nil_r in Hsec.
  apply parse_str_app in Hps2.
  destruct first as [|c0 t]; [discriminate|].
  cbn [str_first] in Hc. injection Hc as ->.
  apply char_eq_true in Ec. subst c.
  assert (Ht : t <> "").
  { intros ->. rewrite str_eq_refl in E1. discriminate. }
  pose proof (parse_str_group _ _ _ Hps Ht) as Hd.
  destruct (str_last t Ht) as [cl Hcl].
  rewrite str_inner_group in Hin. rewrite Hin in Hcl.
  assert (Hclose : cl = ")"%char).
  { rewrite Hcl in Hd. cbn [depth] in Hd.
    rewrite !depth_app, Hps2, depth_app, Hsec in Hd.
    rewrite (depth_repr a Hw1), (depth_repr b Hw2) in Hd.
    assert (Hcon : depth connective = 0%Z)
      by (destruct (is_binary_cases _ Ebc) as [-> | [-> | ->]]; reflexivity).
    rewrite Hcon in Hd. cbn [depth] in Hd.
    unfold char_depth at 2 in Hd. change (char_depth "(") with 1%Z in Hd.
    destruct (char_eq cl "(") eqn:Eo; [lia|].
    destruct (char_eq cl ")") eqn:Ecl; [apply char_eq_true, Ecl | lia]. }
  subst cl. split.
  - cbn [wf]. rewrite Ebc, Hw1, Hw2. reflexivity.
  - apply parse_str_app in Hps. rewrite Hps, Hcl, Hps2, Hsec. cbn [repr].
    change ("(" +:+ repr a +:+ connective +:+ repr b +:+ ")")
      with (String "(" (repr a +:+ connective +:+ repr b +:+ ")")).
    rewrite !str_app_assoc. reflexivity.
Qed.

Lemma char_depth_plain (c : ascii) :
  char_depth c = 0%Z -> char_eq c "(" = false /\ char_eq c ")" = false.
Proof.
  unfold char_depth. destruct (char_eq c "("); [discriminate|].
  destruct (char_eq c ")"); [discriminate|]. auto.
Qed.

Lemma plain_all_decimal (s : string) : all_decimal s = true -> plain s.
Proof.
  induction s as [|c s IH]; [exact (fun _ => I)|]. cbn [all_decimal plain].
  intros H. apply andb_true_iff in H as [Hc Hs].
  split; [apply char_depth_decimal, Hc | apply IH, Hs].
Qed.

Lemma plain_Atom (root : string) : wf (Atom root) = true -> plain root.
Proof.
  intros Hwf. apply wf_Atom_cases in Hwf as [Hv | [_ [-> | ->]]];
    [|repeat split ..].
  apply is_variable_shape in Hv as (c & tl & -> & Hp & _ & Htl).
  split; [apply char_depth_letter, Hp | apply plain_all_decimal, Htl].
Qed.

Lemma scan_group_plain (a t : string) :
  plain a -> forall ind counter, (counter <> 0)%Z ->
  scan_group (a +:+ t) ind counter
  = scan_group t (ind + String.length a) counter.
Proof.
  induction a as [|ch a IH]; intros Hpl ind counter Hc.
  - cbn [String.append String.length]. rewrite Nat.add_0_r. reflexivity.
  - destruct Hpl as [Hch Hpl]. apply char_depth_plain in Hch as [Ho Hcl].
    change (String ch a +:+ t) with (String ch (a +:+ t)).
    cbn [scan_group String.length]. rewrite Ho, Hcl.
    destruct (Z.eqb_spec counter 0); [contradiction|].
    rewrite IH by assumption. f_equal. lia.
Qed.

Lemma scan_group_repr (f : Formula) :
  wf f = true -> forall t ind counter, (0 < counter)%Z ->
  scan_group (repr f +:+ t) ind counter
  = scan_group t (ind + String.length (repr f)) counter.
Proof.
  induction f as [root|root first IH|root first IH1 second IH2];
    intros Hwf t ind counter Hc.
  - cbn [repr]. apply scan_group_plain; [apply plain_Atom, Hwf | lia].
  - cbn [wf] in Hwf. apply andb_true_iff in Hwf as [Hu Hwf].
    apply is_unary_eq in Hu. subst root. cbn [repr].
    rewrite str_app_assoc, (scan_group_plain "~") by (repeat split || lia).
    rewrite (IH Hwf) by exact Hc. f_equal.
    rewrite str_length_app. lia.
  - cbn [wf] in Hwf. apply andb_true_iff in Hwf as [Hwf Hw2].
    apply andb_true_iff in Hwf as [Hb Hw1]. cbn [repr].
    rewrite !str_app_assoc.
    change ("(" +:+ repr first +:+ root +:+ repr second +:+ ")" +:+ t)
      with (String "(" (repr first +:+ root +:+ repr second +:+ ")" +:+ t)).
    cbn [scan_group]. change (char_eq "(" "(") with true. cbv iota.
    rewrite (IH1 Hw1) by lia.
    rewrite (scan_group_plain root) by
      (destruct (is_binary_cases _ Hb) as [-> | [-> | ->]];
       repeat split || lia).
    rewrite (IH2 Hw2) by lia.
    change (")" +:+ t) with (String ")" t).
    cbn [scan_group]. change (char_eq ")" "(") with false.
    change (char_eq ")" ")") with true. cbv iota.
    f_equal; [|lia].
    change (String "(" (repr first +:+ root +:+ repr second +:+ ")"))
      with ("(" +:+ repr first +:+ root +:+ repr second +:+ ")").
    rewrite !str_length_app. cbn [String.length]. lia.
Qed.

Lemma scan_group_end (r : string) (ind : nat) :
  follows r = true -> scan_group r ind 0 = (ind, 0%Z).
Proof.
  destruct r as [|c r]; [reflexivity|]. cbn [follows scan_group].
  intros H. apply andb_true_iff in H as [H Hcl].
  apply andb_true_iff in H as [_ Ho].
  apply negb_true_iff in Ho, Hcl. rewrite Ho, Hcl. reflexivity.
Qed.

Lemma str_eq_head (c d : ascii) (a b : string) :
  c <> d -> str_eq (String c a) (String d b) = false.
Proof. intros H. apply bool_decide_eq_false_2. congruence. Qed.

Lemma str_eq_long (c d : ascii) (a : string) :
  a <> "" -> str_eq (String c a) (String d "") = false.
Proof. intros H. apply bool_decide_eq_false_2. congruence. Qed.

Lemma decimals_of_app (tl r : string) :
  all_decimal tl = true -> follows r = true -> decimals_of (tl +:+ r) = tl.
Proof.
  intros Htl Hr. induction tl as [|c tl IH].
  - cbn [String.append]. destruct r as [|ch r]; [reflexivity|].
    cbn [follows] in Hr. apply andb_true_iff in Hr as [Hr _].
    apply andb_true_iff in Hr as [Hr _]. apply negb_true_iff in Hr.
    cbn [decimals_of]. rewrite Hr. reflexivity.
  - cbn [all_decimal] in Htl. apply andb_true_iff in Htl as [Hc Htl].
    change (String c tl +:+ r) with (String c (tl +:+ r)).
    cbn [decimals_of]. rewrite Hc, (IH Htl). reflexivity.
Qed.

Lemma parse_str_variable (root r : string) :
  is_variable root = Ret true -> follows r = true ->
  parse_str (root +:+ r) = Ret (root, r).
Proof.
  intros Hv Hr. apply is_variable_shape in Hv as (c & tl & -> & Hp & Hz & Htl).
  change (String c tl +:+ r) with (String c (tl +:+ r)).
  unfold parse_str. cbn [str_first bind is_variable String.length].
  rewrite Hp, Hz. cbn [andb orb Nat.eqb bind str_drop].
  rewrite (decimals_of_app tl r Htl Hr), Nat.add_1_r.
  cbn [str_take str_drop]. rewrite str_take_app, str_drop_app. reflexivity.
Qed.

(** A token of one character that is neither a letter of a name, nor [-]
    nor [(]. *)
Lemma parse_str_single (c : ascii) (r : string) :
  is_variable (String c "") = Ret false ->
  c <> "-"%char -> c <> "("%char ->
  parse_str (String c r) = Ret (String c "", r).
Proof.
  intros Hv Hm Ho. unfold parse_str. cbn [str_first bind]. rewrite Hv.
  cbn [bind str_take]. rewrite str_eq_head by exact Hm.
  replace (char_eq c "(") with false
    by (symmetry; apply bool_decide_eq_false_2, Ho).
  reflexivity.
Qed.

Lemma parse_str_connective (op r : string) :
  is_binary op = true -> parse_str (op +:+ r) = Ret (op, r).
Proof.
  intros Hb. destruct (is_binary_cases _ Hb) as [-> | [-> | ->]].
  - apply parse_str_single; [reflexivity | discriminate | discriminate].
  - apply parse_str_single; [reflexivity | discriminate | discriminate].
  - reflexivity.
Qed.

Lemma repr_nonempty (f : Formula) : wf f = true -> repr f <> "".
Proof.
  destruct f as [root|root first|root first second]; cbn [wf repr]; intros H.
  - destruct root; [discriminate | discriminate].
  - apply andb_true_iff in H as [Hu _]. apply is_unary_eq in Hu. subst.
    discriminate.
  - discriminate.
Qed.

Lemma parse_str_group_repr (op : string) (a b : Formula) (r : string) :
  wf (Binary op a b) = true -> follows r = true ->
  parse_str (repr (Binary op a b) +:+ r) = Ret (repr (Binary op a b), r).
Proof.
  intros Hwf Hr. pose proof Hwf as Hwf'. cbn [wf] in Hwf'.
  apply andb_true_iff in Hwf' as [Hwf' Hw2].
  apply andb_true_iff in Hwf' as [Hb Hw1].
  assert (Hscan : scan_group (repr (Binary op a b) +:+ r) 0 0
                  = (String.length (repr (Binary op a b)), 0%Z)).
  { cbn [repr]. rewrite !str_app_assoc.
    change ("(" +:+ repr a +:+ op +:+ repr b +:+ ")" +:+ r)
      with (String "(" (repr a +:+ op +:+ repr b +:+ ")" +:+ r)).
    cbn [scan_group]. change (char_eq "(" "(") with true. cbv iota.
    rewrite (scan_group_repr a Hw1) by lia.
    rewrite (scan_group_plain op) by
      (destruct (is_binary_cases _ Hb) as [-> | [-> | ->]];
       repeat split || lia).
    rewrite (scan_group_repr b Hw2) by lia.
    change (")" +:+ r) with (String ")" r).
    cbn [scan_group]. change (char_eq ")" "(") with false.
    change (char_eq ")" ")") with true. cbv iota.
    change (0 + 1 - 1)%Z with 0%Z. rewrite scan_group_end by exact Hr.
    f_equal.
    change (String "(" (repr a +:+ op +:+ repr b +:+ ")"))
      with ("(" +:+ repr a +:+ op +:+ repr b +:+ ")").
    rewrite !str_length_app. cbn [String.length]. lia. }
  unfold parse_str. rewrite Hscan.
  rewrite str_take_app, str_drop_app.
  cbn [repr]. rewrite !str_app_assoc.
  change ("(" +:+ repr a +:+ op +:+ repr b +:+ ")" +:+ r)
    with (String "(" (repr a +:+ op +:+ repr b +:+ ")" +:+ r)).
  cbn [str_first bind str_take].
  change (is_variable (String "(" "")) with (@Ret bool false). cbn [bind].
  rewrite str_eq_head by discriminate.
  change (char_eq "(" "(") with true. cbv iota.
  change (negb (0 =? 0)%Z) with false. cbv iota. reflexivity.
Qed.

Lemma str_empty_app (a r : string) : a <> "" -> str_empty (a +:+ r) = false.
Proof. destruct a; [congruence | reflexivity]. Qed.

Lemma str_take_init (x : string) (c : ascii) :
  str_take (String.length (x +:+ String c "") - 1) (x +:+ String c "") = x.
Proof.
  rewrite str_length_app. cbn [String.length].
  replace (String.length x + 1 - 1) with (String.length x) by lia.
  apply str_take_app.
Qed.

Lemma Formula_init_Binary (op : string) (a b : Formula) :
  is_binary op = true ->
  Formula_init op (Some a) (Some b) = Ret (Binary op a b).
Proof.
  intros Hb. destruct (is_binary_cases _ Hb) as [-> | [-> | ->]]; reflexivity.
Qed.

Lemma follows_connective (op r : string) :
  is_binary op = true -> follows (op +:+ r) = true.
Proof.
  intros Hb. destruct (is_binary_cases _ Hb) as [-> | [-> | ->]]; reflexivity.
Qed.

Lemma parse_prefix_complete (f : Formula) :
  wf f = true ->
  forall fuel r, height f < fuel -> follows r = true ->
  _parse_prefix fuel (repr f +:+ r) = Ret (Some f, r).
Proof.
  induction f as [root|root first IH|root first IH1 second IH2];
    intros Hwf fuel r Hfuel Hr; (destruct fuel as [|fuel]; [lia|]);
    pose proof (repr_nonempty _ Hwf) as Hne;
    cbn [_parse_prefix]; rewrite (str_empty_app _ r Hne).
  - cbn [repr]. apply wf_Atom_cases in Hwf as [Hv | [Hv Hc]].
    + rewrite (parse_str_variable root r Hv Hr). cbn [bind].
      rewrite Hv. cbn [bind orb]. unfold Formula_init. rewrite Hv. reflexivity.
    + assert (Hps : parse_str (root +:+ r) = Ret (root, r)).
      { destruct Hc as [-> | ->];
          apply parse_str_single; (reflexivity || discriminate). }
      rewrite Hps. cbn [bind]. rewrite Hv. cbn [bind orb].
      destruct Hc as [-> | ->]; reflexivity.
  - cbn [wf] in Hwf. apply andb_true_iff in Hwf as [Hu Hwf].
    apply is_unary_eq in Hu. subst root. cbn [repr]. rewrite str_app_assoc.
    change ("~" +:+ repr first +:+ r) with (String "~" (repr first +:+ r)).
    rewrite parse_str_single by (reflexivity || discriminate).
    cbn [bind]. change (is_variable "~") with (@Ret bool false).
    cbn [bind orb]. change (is_constant "~") with false.
    change (is_binary "~") with false. change (is_unary "~") with true.
    cbv iota. rewrite (str_empty_app _ r (repr_nonempty _ Hwf)).
    cbn [height] in Hfuel.
    rewrite (IH Hwf fuel r) by (lia || exact Hr). cbn [bind fst snd].
    reflexivity.
  - pose proof Hwf as Hwf'. cbn [wf] in Hwf'.
    apply andb_true_iff in Hwf' as [Hwf' Hw2].
    apply andb_true_iff in Hwf' as [Hb Hw1].
    cbn [height] in Hfuel.
    rewrite (parse_str_group_repr root first second r Hwf Hr). cbn [bind].
    cbn [repr].
    change ("(" +:+ repr first +:+ root +:+ repr second +:+ ")")
      with (String "(" (repr first +:+ root +:+ repr second +:+ ")")).
    change (is_variable (String "(" (repr first +:+ root +:+ repr second +:+ ")")))
      with (@Ret bool false).
    cbn [bind orb]. unfold is_constant, is_binary, is_unary.
    rewrite !str_eq_head by discriminate. cbn [orb str_first bind].
    change (char_eq "(" "(") with true. cbv iota.
    rewrite str_eq_long
      by (repeat apply str_app_nonempty_r; discriminate).
    rewrite str_inner_group.
    replace (repr first +:+ root +:+ repr second +:+ ")")
      with ((repr first +:+ root +:+ repr second) +:+ ")")
      by (rewrite !str_app_assoc; reflexivity).
    rewrite str_take_init.
    rewrite (IH1 Hw1 fuel (root +:+ repr second))
      by (lia || apply follows_connective, Hb).
    cbn [bind].
    rewrite str_empty_app
      by (destruct (is_binary_cases _ Hb) as [-> | [-> | ->]]; discriminate).
    rewrite (parse_str_connective root (repr second) Hb). cbn [bind].
    fold (is_binary root). rewrite Hb. cbn [negb].
    assert (H2 : _parse_prefix fuel (repr second) = Ret (Some second, "")).
    { rewrite <- (str_app_nil_r (repr second)) at 1.
      apply IH2; [exact Hw2 | lia | reflexivity]. }
    rewrite H2. cbn [bind str_empty negb].
    rewrite (Formula_init_Binary root first second Hb). reflexivity.
Qed.

(** C2: when [is_formula] holds of a string, [parse] returns a formula whose
    rendering is that string; and the rendering of a formula is accepted by
    [is_formula] and parsed back to the same formula, given recursion depth
    beyond the nesting of the formula. *)
Theorem parse_repr_round_trip :
  (forall fuel s,
     is_formula fuel s = Ret true ->
     exists f, parse fuel s = Ret (Some f) /\ wf f = true /\ repr f = s) /\
  (forall f fuel,
     wf f = true -> height f < fuel ->
     is_formula fuel (repr f) = Ret true /\
     parse fuel (repr f) = Ret (Some f)).
Proof.
  split.
  - intros fuel s H. unfold parse. rewrite H. cbn [bind assert].
    unfold is_formula in H. apply bind_Ret in H as ([o r] & Hp & H).
    injection H as H. cbn [snd] in H. apply str_empty_true in H. subst r.
    rewrite Hp. cbn [bind fst].
    apply parse_prefix_sound in Hp. destruct o as [f|]; [|congruence].
    destruct Hp as [Hwf Hs]. rewrite str_app_nil_r in Hs.
    exists f. auto.
  - intros f fuel Hwf Hfuel.
    assert (Hp : _parse_prefix fuel (repr f) = Ret (Some f, "")).
    { rewrite <- (str_app_nil_r (repr f)) at 1.
      apply parse_prefix_complete; [exact Hwf | exact Hfuel | reflexivity]. }
    unfold parse, is_formula. rewrite Hp. split; reflexivity.
Qed.

Lemma parse_repr_round_trip_witness :
  (exists f, parse 4 "~(p&q76)" = Ret (Some f) /\
             wf f = true /\ repr f = "~(p&q76)") /\
  (is_formula 3 (repr (Binary "|" (Binary "->" (Atom "p") (Atom "p")) (Atom "r")))
   = Ret true /\
   parse 3 (repr (Binary "|" (Binary "->" (Atom "p") (Atom "p")) (Atom "r")))
   = Ret (Some (Binary "|" (Binary "->" (Atom "p") (Atom "p")) (Atom "r")))).
Proof.
  split.
  - apply (proj1 parse_repr_round_trip 4 "~(p&q76)"). reflexivity.
  - apply (proj2 parse_repr_round_trip); [reflexivity | cbn; lia].
Defined.

(** The fuel is only a bound on the recursion depth: a result reached within
    some depth is the result at every greater depth. *)
Lemma parse_prefix_fuel_step (fuel : nat) :
  forall s res,
    _parse_prefix fuel s = res -> res <> OutOfFuel ->
    _parse_prefix (S fuel) s = res.
Proof.
  induction fuel as [|fuel IH]; intros s res H Hne.
  { subst res. contradiction. }
  remember (S fuel) as n eqn:En. cbn [_parse_prefix]. subst n.
  cbn [_parse_prefix] in H.
  destruct (str_empty s); [exact H|].
  destruct (parse_str s) as [[first rest]| |]; cbn [bind] in *; [|exact H ..].
  destruct (is_variable first) as [v| |]; cbn [bind] in *; [|exact H ..].
  destruct (v || is_constant first); [exact H|].
  destruct (is_binary first); [exact H|].
  destruct (is_unary first).
  { destruct (str_empty rest); [exact H|].
    destruct (_parse_prefix fuel rest) as [r1|e|] eqn:E1; cbn [bind] in H;
      [| |subst res; contradiction];
      rewrite (IH _ _ E1) by discriminate; cbn [bind]; exact H. }
  destruct (str_first first) as [c| |]; cbn [bind] in *; [|exact H ..].
  destruct (char_eq c "("); [|exact H].
  destruct (str_eq first "("); [exact H|].
  destruct (_parse_prefix fuel (str_inner first)) as [[first_f _rest]|e|] eqn:E1;
    cbn [bind] in H; [| |subst res; contradiction];
    rewrite (IH _ _ E1) by discriminate; cbn [bind]; [|exact H].
  destruct (str_empty _rest); [exact H|].
  destruct (parse_str _rest) as [[connective _second]| |]; cbn [bind] in *;
    [|exact H ..].
  destruct (negb (is_binary connective)); [exact H|].
  destruct (_parse_prefix fuel _second) as [[second_f second_r]|e|] eqn:E2;
    cbn [bind] in H; [| |subst res; contradiction];
    rewrite (IH _ _ E2) by discriminate; cbn [bind]; exact H.
Qed.

Lemma parse_prefix_fuel_mono (fuel fuel' : nat) (s : string) :
  fuel <= fuel' -> _parse_prefix fuel s <> OutOfFuel ->
  _parse_prefix fuel' s = _parse_prefix fuel s.
Proof.
  induction 1 as [|fuel' _ IH]; intros Hne; [reflexivity|].
  rewrite <- (IH Hne). apply parse_prefix_fuel_step; [reflexivity|].
  rewrite (IH Hne). exact Hne.
Qed.

(** * Further properties of the code *)

(** ** Tokens *)

Lemma variable_is_no_symbol (s : string) :
  is_variable s = Ret true ->
  is_constant s = false /\ is_unary s = false /\ is_binary s = false.
Proof.
  intros Hv. apply is_variable_shape in Hv as (c & tl & -> & Hp & Hz & _).
  unfold is_constant, is_unary, is_binary.
  assert (Hne : forall d rest, char_le "p" d && char_le d "z" = false ->
                               str_eq (String c tl) (String d rest) = false).
  { intros d rest Hd. apply bool_decide_eq_false_2. intros E.
    injection E as -> _. rewrite Hp, Hz in Hd. discriminate. }
  rewrite !Hne by reflexivity. repeat split.
Qed.

(** X1: a string belongs to at most one of the four token classes: a
    variable name is no constant and no operator, a constant is no variable
    name and no operator, and [~] is not a binary operator. *)
Theorem token_classes_disjoint (s : string) :
  (is_variable s = Ret true ->
   is_constant s = false /\ is_unary s = false /\ is_binary s = false) /\
  (is_constant s = true ->
   is_variable s = Ret false /\ is_unary s = false /\ is_binary s = false) /\
  (is_unary s = true -> is_variable s = Ret false /\ is_binary s = false) /\
  (is_binary s = true -> is_variable s = Ret false).
Proof.
  split; [|split; [|split]].
  - apply variable_is_no_symbol.
  - intros Hc. apply is_constant_cases in Hc as [-> | ->]; auto.
  - intros Hu. apply is_unary_eq in Hu. subst. auto.
  - intros Hb. apply is_binary_cases in Hb as [-> | [-> | ->]]; auto.
Qed.

Lemma token_classes_disjoint_witness :
  is_constant "x12" = false /\ is_unary "x12" = false /\ is_binary "x12" = false.
Proof.
  apply (proj1 (token_classes_disjoint "x12")). reflexivity.
Defined.

Lemma decimals_of_prefix (s : string) :
  s = decimals_of s +:+ str_drop (String.length (decimals_of s)) s /\
  all_decimal (decimals_of s) = true /\
  match str_drop (String.length (decimals_of s)) s with
  | "" => True
  | String d _ => char_isdecimal d = false
  end.
Proof.
  induction s as [|i s IH]; [repeat split|].
  cbn [decimals_of]. destruct (char_isdecimal i) eqn:Ei.
  - cbn [String.length str_drop all_decimal]. rewrite Ei.
    destruct IH as (IH1 & IH2 & IH3). split; [|split].
    + change (String i (decimals_of s) +:+ ?x)
        with (String i (decimals_of s +:+ x)). f_equal. exact IH1.
    + exact IH2.
    + exact IH3.
  - cbn [String.length str_drop]. repeat split. exact Ei.
Qed.

(** X2: the token scanner fails on the empty string with an [IndexError];
    on every other string it returns a first unit and a remainder, the
    unit is not empty and the two together are the input. *)
Theorem parse_str_splits :
  parse_str "" = Raise IndexError /\
  forall s, s <> "" ->
    exists first rest,
      parse_str s = Ret (first, rest) /\ s = first +:+ rest /\ first <> "".
Proof.
  split; [reflexivity|]. intros s Hne.
  destruct s as [|c s]; [congruence|].
  assert (Hex : exists first rest, parse_str (String c s) = Ret (first, rest)
                                   /\ first <> "").
  { unfold parse_str. cbn [str_first bind is_variable].
    destruct (char_le "p" c && char_le c "z"
              && ((String.length (String c "") =? 1)%nat || isdecimal "")).
    { cbn [bind]. rewrite Nat.add_1_r. cbn [str_take].
      eexists _, _. split; [reflexivity | discriminate]. }
    cbn [bind str_take].
    destruct (str_eq _ "->").
    { eexists _, _. split; [reflexivity | discriminate]. }
    destruct (char_eq c "(") eqn:Ec.
    2:{ eexists _, _. split; [reflexivity | discriminate]. }
    apply char_eq_true in Ec. subst c.
    destruct (scan_group (String "(" s) 0 0) as [ind counter] eqn:Es.
    destruct (negb (counter =? 0)%Z).
    { eexists _, _. split; [reflexivity | discriminate]. }
    cbn [scan_group] in Es. change (char_eq "(" "(") with true in Es.
    cbv iota in Es. apply scan_group_depth in Es as [Hle _].
    destruct ind as [|ind]; [lia|]. cbn [str_take].
    eexists _, _. split; [reflexivity | discriminate]. }
  destruct Hex as (first & rest & Hp & Hf).
  exists first, rest. split; [exact Hp|]. split; [|exact Hf].
  apply parse_str_app, Hp.
Qed.

Lemma parse_str_splits_witness :
  exists first rest,
    parse_str "(p&q)|r" = Ret (first, rest) /\ "(p&q)|r" = first +:+ rest
    /\ first <> "".
Proof.
  apply (proj2 parse_str_splits "(p&q)|r"). discriminate.
Defined.

Lemma parse_str_name_token (c : ascii) (s : string) :
  char_le "p" c = true -> char_le c "z" = true ->
  exists digits rest,
    parse_str (String c s) = Ret (String c digits, rest) /\
    s = digits +:+ rest /\
    is_variable (String c digits) = Ret true /\
    match rest with
    | "" => True
    | String d _ => char_isdecimal d = false
    end.
Proof.
  intros Hp Hz. destruct (decimals_of_prefix s) as (Hs & Hd & Hr).
  exists (decimals_of s), (str_drop (String.length (decimals_of s)) s).
  split; [|split; [exact Hs|split; [|exact Hr]]].
  - unfold parse_str. cbn [str_first bind is_variable String.length].
    rewrite Hp, Hz. cbn [andb orb Nat.eqb bind str_drop].
    rewrite Nat.add_1_r. cbn [str_take str_drop]. f_equal. f_equal. f_equal.
    rewrite Hs at 2. apply str_take_app.
  - cbn [is_variable]. rewrite Hp, Hz. cbn [andb]. f_equal.
    destruct (decimals_of s) as [|d ds] eqn:E; [reflexivity|].
    cbn [String.length Nat.eqb orb]. unfold isdecimal. cbn [str_empty negb andb].
    exact Hd.
Qed.

(** X3: on a string that starts with a letter from [p] to [z] the scanner
    returns the letter with every digit that follows it: the unit is a
    variable name and the remainder does not start with a digit. *)
Theorem parse_str_whole_name (c : ascii) (s : string) :
  char_le "p" c = true -> char_le c "z" = true ->
  exists digits rest,
    parse_str (String c s) = Ret (String c digits, rest) /\
    s = digits +:+ rest /\
    is_variable (String c digits) = Ret true /\
    match rest with
    | "" => True
    | String d _ => char_isdecimal d = false
    end.
Proof. apply parse_str_name_token. Qed.

Lemma parse_str_whole_name_witness :
  exists digits rest,
    parse_str "q76&r" = Ret (String "q" digits, rest) /\
    "76&r" = digits +:+ rest /\
    is_variable (String "q" digits) = Ret true /\
    match rest with
    | "" => True
    | String d _ => char_isdecimal d = false
    end.
Proof.
  apply (parse_str_whole_name "q" "76&r"); reflexivity.
Defined.

(** ** Formulas and their strings *)

Lemma repr_inj (f g : Formula) :
  wf f = true -> wf g = true -> repr f = repr g -> f = g.
Proof.
  intros Hf Hg E.
  pose proof (parse_prefix_complete f Hf (S (height f + height g)) ""
                ltac:(lia) eq_refl) as H1.
  pose proof (parse_prefix_complete g Hg (S (height f + height g)) ""
                ltac:(lia) eq_refl) as H2.
  rewrite str_app_nil_r in H1, H2. rewrite E, H2 in H1. congruence.
Qed.

(** X4: on formulas [==] is equality of trees, although it compares the
    renderings: two formulas are equal under [__eq__] exactly when they are
    the same tree; [__ne__] is its negation, and a formula is never equal to
    an object that is not a formula. *)
Theorem Formula_eq_structural (f g : Formula) :
  wf f = true -> wf g = true ->
  (Formula_eq f (Some g) = true <-> f = g) /\
  Formula_ne f (Some g) = negb (Formula_eq f (Some g)) /\
  Formula_eq f None = false /\ Formula_ne f None = true.
Proof.
  intros Hf Hg. split; [|repeat split]. cbn [Formula_eq].
  rewrite str_eq_true. split; [apply repr_inj; assumption | congruence].
Qed.

Lemma Formula_eq_structural_witness :
  (Formula_eq (Binary "&" (Atom "p") (Atom "q1")) (Some (Binary "&" (Atom "p1") (Atom "q")))
   = true <-> Binary "&" (Atom "p") (Atom "q1") = Binary "&" (Atom "p1") (Atom "q")) /\
  Formula_ne (Binary "&" (Atom "p") (Atom "q1")) (Some (Binary "&" (Atom "p1") (Atom "q")))
  = negb (Formula_eq (Binary "&" (Atom "p") (Atom "q1"))
                     (Some (Binary "&" (Atom "p1") (Atom "q")))) /\
  Formula_eq (Binary "&" (Atom "p") (Atom "q1")) None = false /\
  Formula_ne (Binary "&" (Atom "p") (Atom "q1")) None = true.
Proof.
  apply Formula_eq_structural; reflexivity.
Defined.

(** X5: whatever [_parse_prefix] returns, a formula comes with the unparsed
    suffix and the rendering of the formula followed by that suffix is the
    input; a failure comes with a message that is not empty, so that
    [is_formula] is false. *)
Theorem parse_prefix_returns (fuel : nat) (s : string) (o : option Formula)
    (r : string) :
  _parse_prefix fuel s = Ret (o, r) ->
  match o with
  | Some f => wf f = true /\ s = repr f +:+ r
  | None => r <> "" /\ is_formula fuel s = Ret false
  end.
Proof.
  intros H. pose proof (parse_prefix_sound fuel s o r H) as Hs.
  destruct o as [f|]; [exact Hs|]. split; [exact Hs|].
  unfold is_formula. rewrite H. cbn [bind snd].
  destruct r; [congruence | reflexivity].
Qed.

Lemma parse_prefix_returns_witness :
  wf (Atom "p") = true /\ "p&q" = repr (Atom "p") +:+ "&q".
Proof.
  apply (parse_prefix_returns 3 "p&q" (Some (Atom "p")) "&q"). reflexivity.
Defined.

(** X6: [parse] never returns [None]: on a string that [is_formula] rejects
    its assertion fails, and on a string that [is_formula] accepts it returns
    a formula. *)
Theorem parse_never_None (fuel : nat) (s : string) :
  parse fuel s <> Ret None /\
  (is_formula fuel s = Ret false -> parse fuel s = Raise AssertionError) /\
  (is_formula fuel s = Ret true -> exists f, parse fuel s = Ret (Some f)).
Proof.
  split; [|split].
  - unfold parse. destruct (is_formula fuel s) as [[|]| |] eqn:E;
      cbn [bind assert]; try discriminate.
    unfold is_formula in E. apply bind_Ret in E as ([o r] & Hp & E).
    injection E as E. cbn [snd] in E. apply str_empty_true in E. subst r.
    rewrite Hp. cbn [bind fst]. apply parse_prefix_sound in Hp.
    destruct o; [discriminate | congruence].
  - intros E. unfold parse. rewrite E. reflexivity.
  - intros E. unfold parse. rewrite E. cbn [bind assert].
    unfold is_formula in E. apply bind_Ret in E as ([o r] & Hp & E).
    injection E as E. cbn [snd] in E. apply str_empty_true in E. subst r.
    rewrite Hp. cbn [bind fst]. apply parse_prefix_sound in Hp.
    destruct o as [f|]; [eauto | congruence].
Qed.

Lemma parse_never_None_witness :
  parse 3 "p&q" = Raise AssertionError.
Proof.
  apply (proj1 (proj2 (parse_never_None 3 "p&q"))). reflexivity.
Defined.

(** X7: every member of [operators] of a formula is one of the six symbols
    [T], [F], [~], [&], [|] and [->], none is among its variables, and the
    set is empty exactly for a formula that is a single variable. *)
Theorem operators_are_symbols (f : Formula) :
  wf f = true ->
  (forall o, o ∈ operators f ->
     (is_constant o || is_unary o || is_binary o = true) /\
     o ∉ variables f) /\
  (operators f = ∅ <-> exists v, f = Atom v /\ is_variable v = Ret true).
Proof.
  intros Hwf. split.
  - intros o Ho.
    assert (Hsym : is_constant o || is_unary o || is_binary o = true).
    { induction f as [root|root first IH|root first IH1 second IH2].
      - apply wf_Atom_cases in Hwf as [Hv | [Hv Hc]];
          cbn [operators] in Ho; rewrite Hv in Ho.
        + apply elem_of_empty in Ho. contradiction.
        + apply elem_of_singleton in Ho. subst o.
          destruct Hc as [-> | ->]; reflexivity.
      - cbn [wf] in Hwf. apply andb_true_iff in Hwf as [Hu Hwf].
        cbn [operators] in Ho. apply elem_of_union in Ho as [Ho | Ho]; auto.
        apply elem_of_singleton in Ho. subst o. rewrite Hu.
        apply orb_true_iff. left. apply orb_true_r.
      - cbn [wf] in Hwf. apply andb_true_iff in Hwf as [Hwf Hw2].
        apply andb_true_iff in Hwf as [Hb Hw1].
        cbn [operators] in Ho. apply elem_of_union in Ho as [Ho | Ho].
        + apply elem_of_singleton in Ho. subst o. rewrite Hb.
          apply orb_true_r.
        + apply elem_of_union in Ho as [Ho | Ho]; auto. }
    split; [exact Hsym|]. intros Hv. apply variables_are_names in Hv.
    destruct (variable_is_no_symbol o Hv) as (Hc & Hu & Hb).
    rewrite Hc, Hu, Hb in Hsym. discriminate.
  - split.
    + intros He. destruct f as [root|root first|root first second].
      * exists root. split; [reflexivity|]. cbn [operators] in He.
        destruct (is_variable root) as [[|]| |]; try reflexivity;
          exfalso; eapply (@non_empty_singleton_L _ (gset string)); eauto;
          typeclasses eauto.
      * exfalso. cbn [operators] in He.
        assert (root ∈ ({[root]} ∪ operators first : gset string))
          by (apply elem_of_union; left; apply elem_of_singleton; reflexivity).
        rewrite He in H. apply elem_of_empty in H. exact H.
      * exfalso. cbn [operators] in He.
        assert (root ∈ ({[root]} ∪ (operators first ∪ operators second)
                        : gset string))
          by (apply elem_of_union; left; apply elem_of_singleton; reflexivity).
        rewrite He in H. apply elem_of_empty in H. exact H.
    + intros (v & -> & Hv). cbn [operators]. rewrite Hv. reflexivity.
Qed.

Lemma operators_are_symbols_witness :
  (forall o, o ∈ operators (Binary "->" (Atom "T") (Unary "~" (Atom "x"))) ->
     (is_constant o || is_unary o || is_binary o = true) /\
     o ∉ variables (Binary "->" (Atom "T") (Unary "~" (Atom "x")))) /\
  (operators (Binary "->" (Atom "T") (Unary "~" (Atom "x"))) = ∅ <->
   exists v, Binary "->" (Atom "T") (Unary "~" (Atom "x")) = Atom v
             /\ is_variable v = Ret true).
Proof.
  apply operators_are_symbols. reflexivity.
Defined.

Lemma letter_not_decimal (c : ascii) :
  char_le "p" c = true -> char_isdecimal c = false.
Proof.
  unfold char_isdecimal, char_le. change (nat_of_ascii "p") with 112.
  change (nat_of_ascii "9") with 57. intros H. apply Nat.leb_le in H.
  apply andb_false_iff. right. apply Nat.leb_gt. lia.
Qed.

Lemma follows_polish (f : Formula) (r : string) :
  wf f = true -> follows (polish f +:+ r) = true.
Proof.
  intros Hwf. destruct f as [root|root first|root first second];
    cbn [polish wf] in *.
  - apply wf_Atom_cases in Hwf as [Hv | [_ [-> | ->]]];
      [|reflexivity|reflexivity].
    apply is_variable_shape in Hv as (c & tl & -> & Hp & _ & _).
    change (String c tl +:+ r) with (String c (tl +:+ r)). cbn [follows].
    rewrite (letter_not_decimal c Hp).
    destruct (char_depth_plain c (char_depth_letter c Hp)) as [-> ->].
    reflexivity.
  - apply andb_true_iff in Hwf as [Hu _]. apply is_unary_eq in Hu. subst.
    reflexivity.
  - apply andb_true_iff in Hwf as [Hwf _].
    apply andb_true_iff in Hwf as [Hb _]. rewrite str_app_assoc.
    apply follows_connective, Hb.
Qed.

Lemma polish_inj_suffix (f : Formula) :
  wf f = true ->
  forall g r r', wf g = true -> follows r = true -> follows r' = true ->
    polish f +:+ r = polish g +:+ r' -> f = g /\ r = r'.
Proof.
  assert (Hsingle : forall c x, is_variable (String c "") = Ret false ->
            c <> "-"%char -> c <> "("%char ->
            parse_str (String c "" +:+ x) = Ret (String c "", x)).
  { intros c x. apply parse_str_single. }
  assert (Htoken : forall h r, wf h = true -> follows r = true ->
            parse_str (polish h +:+ r) =
            Ret match h with
                | Atom root => (root, r)
                | Unary root first => (root, polish first +:+ r)
                | Binary root first second =>
                    (root, polish first +:+ polish second +:+ r)
                end).
  { intros h r Hh Hr. destruct h as [root|root first|root first second];
      cbn [polish wf] in *.
    - apply wf_Atom_cases in Hh as [Hv | [_ [-> | ->]]].
      + apply parse_str_variable; assumption.
      + apply Hsingle; (reflexivity || discriminate).
      + apply Hsingle; (reflexivity || discriminate).
    - apply andb_true_iff in Hh as [Hu _]. apply is_unary_eq in Hu. subst.
      rewrite str_app_assoc. apply Hsingle; (reflexivity || discriminate).
    - apply andb_true_iff in Hh as [Hh _]. apply andb_true_iff in Hh as [Hb _].
      rewrite !str_app_assoc. apply parse_str_connective, Hb. }
  induction f as [root|root first IH|root first IH1 second IH2];
    intros Hf g r r' Hg Hr Hr' E;
    pose proof (Htoken _ r Hf Hr) as T1; pose proof (Htoken _ r' Hg Hr') as T2;
    rewrite E, T2 in T1; destruct g as [root'|root' g1|root' g1 g2];
    injection T1 as <- T1; cbn [wf] in Hf, Hg.
  - subst. auto.
  - exfalso. apply andb_true_iff in Hg as [Hu _]. apply is_unary_eq in Hu.
    subst. discriminate.
  - exfalso. apply andb_true_iff in Hg as [Hg _].
    apply andb_true_iff in Hg as [Hb _].
    destruct (is_binary_cases _ Hb) as [-> | [-> | ->]]; discriminate.
  - exfalso. apply andb_true_iff in Hf as [Hu _]. apply is_unary_eq in Hu.
    subst. discriminate.
  - apply andb_true_iff in Hf as [_ Hf]. apply andb_true_iff in Hg as [_ Hg].
    destruct (IH Hf g1 r r' Hg Hr Hr' (eq_sym T1)) as [-> ->]. auto.
  - exfalso. apply andb_true_iff in Hf as [Hu _]. apply is_unary_eq in Hu.
    subst. discriminate.
  - exfalso. apply andb_true_iff in Hf as [Hf _].
    apply andb_true_iff in Hf as [Hb _].
    destruct (is_binary_cases _ Hb) as [-> | [-> | ->]]; discriminate.
  - exfalso. apply andb_true_iff in Hg as [Hu _]. apply is_unary_eq in Hu.
    subst. discriminate.
  - apply andb_true_iff in Hf as [Hf Hf2]. apply andb_true_iff in Hf as [_ Hf1].
    apply andb_true_iff in Hg as [Hg Hg2]. apply andb_true_iff in Hg as [_ Hg1].
    destruct (IH1 Hf1 g1 (polish second +:+ r) (polish g2 +:+ r') Hg1
                (follows_polish _ _ Hf2) (follows_polish _ _ Hg2) (eq_sym T1))
      as [-> E2].
    destruct (IH2 Hf2 g2 r r' Hg2 Hr Hr' E2) as [-> ->]. auto.
Qed.

Lemma plain_app (a b : string) : plain a -> plain b -> plain (a +:+ b).
Proof.
  induction a as [|c a IH]; [auto|]. intros [Hc Ha] Hb.
  change (String c a +:+ b) with (String c (a +:+ b)). split; auto.
Qed.

(** X8: the Polish rendering needs no parentheses: it has none, and still
    two formulas with the same Polish rendering are the same formula. *)
Theorem polish_unambiguous (f g : Formula) :
  wf f = true -> wf g = true ->
  plain (polish f) /\ (polish f = polish g -> f = g).
Proof.
  intros Hf Hg. split.
  - clear g Hg.
    induction f as [root|root first IH|root first IH1 second IH2];
      cbn [polish wf] in *.
    + apply plain_Atom, Hf.
    + apply andb_true_iff in Hf as [Hu Hf]. apply is_unary_eq in Hu. subst.
      apply plain_app; [repeat split | auto].
    + apply andb_true_iff in Hf as [Hf Hf2].
      apply andb_true_iff in Hf as [Hb Hf1].
      apply plain_app; [|apply plain_app; auto].
      destruct (is_binary_cases _ Hb) as [-> | [-> | ->]]; repeat split.
  - intros E.
    apply (polish_inj_suffix f Hf g "" "" Hg eq_refl eq_refl).
    rewrite !str_app_nil_r. exact E.
Qed.

Lemma polish_unambiguous_witness :
  plain (polish (Binary "&" (Atom "p") (Atom "q1"))) /\
  (polish (Binary "&" (Atom "p") (Atom "q1"))
   = polish (Binary "&" (Atom "p") (Atom "q1")) ->
   Binary "&" (Atom "p") (Atom "q1") = Binary "&" (Atom "p") (Atom "q1")).
Proof.
  apply polish_unambiguous; reflexivity.
Defined.

(** ** Models and evaluation *)

Lemma is_variable_outcomes (s : string) :
  is_variable s = Raise IndexError \/ exists b, is_variable s = Ret b.
Proof. destruct s; [left; reflexivity | right; eexists; reflexivity]. Qed.

Lemma is_model_keys_outcomes (keys : list string) :
  is_model_keys keys = Raise IndexError \/ exists b, is_model_keys keys = Ret b.
Proof.
  induction keys as [|k keys IH]; [right; eexists; reflexivity|].
  cbn [is_model_keys].
  destruct (is_variable_outcomes k) as [-> | [b ->]]; [left; reflexivity|].
  cbn [bind]. destruct b; cbn [negb]; [exact IH | right; eexists; reflexivity].
Qed.

Lemma is_model_keys_true (keys : list string) :
  is_model_keys keys = Ret true -> variable_names keys.
Proof.
  induction keys as [|k keys IH]; [constructor|].
  cbn [is_model_keys]. intros H. apply bind_Ret in H as (v & Hv & H).
  destruct v; cbn [negb] in H; [|discriminate].
  constructor; [exact Hv | apply IH, H].
Qed.

(** X9: [is_model] holds exactly of the dicts whose keys are all variable
    names; it returns a boolean on every dict without an empty key (an empty
    key that is reached is an [IndexError]); and [variables(model)] returns
    the keys of a model and fails its assertion on any other dict. *)
Theorem is_model_characterized (model : Model) :
  (is_model model = Ret true <-> variable_names (model.*1)) /\
  ("" ∉ model.*1 -> exists b, is_model model = Ret b) /\
  (is_model model = Ret true -> model_variables model = Ret (model.*1)) /\
  (is_model model = Ret false -> model_variables model = Raise AssertionError).
Proof.
  split; [|split; [|split]].
  - split; [apply is_model_keys_true | apply is_model_keys_Ret].
  - unfold is_model. induction (model.*1) as [|k keys IH]; intros Hne.
    + eexists. reflexivity.
    + cbn [is_model_keys]. destruct k as [|c k].
      * exfalso. apply Hne. left.
      * cbn [is_variable bind].
        destruct (negb _); [eexists; reflexivity|].
        apply IH. intros Hin. apply Hne. right. exact Hin.
  - intros H. unfold model_variables. rewrite H. reflexivity.
  - intros H. unfold model_variables. rewrite H. reflexivity.
Qed.

Lemma is_model_characterized_witness :
  exists b, is_model [("p", true); ("T", false)] = Ret b.
Proof.
  apply (proj1 (proj2 (is_model_characterized [("p", true); ("T", false)]))).
  intros H. repeat (apply elem_of_cons in H as [H | H]; [discriminate|]).
  inversion H.
Defined.

Lemma evaluate_head (formula : Formula) (model : Model) :
  exists body,
    evaluate formula model =
    (let* m := is_model model in
     let* _ := assert m in
     let* keys := model_variables model in
     let* _ := assert (bool_decide (variables formula ⊆ list_to_set keys)) in
     body).
Proof. destruct formula; eexists; reflexivity. Qed.

(** X10: [evaluate] rejects a dict that is not a model, and a model that
    lacks a variable of the formula, by a failed assertion; whatever the
    model, a formula never fails with a [KeyError] or a [TypeError]: the
    only exceptions are [AssertionError] and the [IndexError] of an empty
    key. *)
Theorem evaluate_rejects (formula : Formula) (model : Model) :
  (is_model model = Ret false ->
   evaluate formula model = Raise AssertionError) /\
  (is_model model = Ret true -> ~ sufficient model formula ->
   evaluate formula model = Raise AssertionError) /\
  (wf formula = true -> forall e,
     evaluate formula model = Raise e -> e = AssertionError \/ e = IndexError).
Proof.
  destruct (evaluate_head formula model) as [body Hb].
  assert (H1 : is_model model = Ret false ->
               evaluate formula model = Raise AssertionError).
  { intros H. rewrite Hb, H. reflexivity. }
  assert (H2 : is_model model = Ret true -> ~ sufficient model formula ->
               evaluate formula model = Raise AssertionError).
  { intros H Hs. rewrite Hb. unfold model_variables. rewrite H.
    cbn [bind assert]. rewrite bool_decide_eq_false_2 by exact Hs.
    reflexivity. }
  split; [exact H1|]. split; [exact H2|].
  intros Hwf e He.
  destruct (is_model_keys_outcomes (model.*1)) as [Hm | [[|] Hm]];
    fold (is_model model) in Hm.
  - rewrite Hb, Hm in He. cbn [bind] in He. right. congruence.
  - destruct (decide (variables formula ⊆ list_to_set (model.*1)))
      as [Hs | Hs]; fold (sufficient model formula) in Hs.
    + rewrite evaluate_truth in He by assumption. discriminate.
    + rewrite (H2 Hm Hs) in He. left. congruence.
  - rewrite (H1 Hm) in He. left. congruence.
Qed.

Lemma evaluate_rejects_witness :
  evaluate (Binary "&" (Atom "p") (Atom "q")) [("p", true)]
  = Raise AssertionError.
Proof.
  apply (proj1 (proj2 (evaluate_rejects (Binary "&" (Atom "p") (Atom "q"))
                                        [("p", true)]))).
  - reflexivity.
  - unfold sufficient.
    apply (bool_decide_eq_false_1
             (variables (Binary "&" (Atom "p") (Atom "q"))
              ⊆ list_to_set ([("p", true)].*1))).
    reflexivity.
Defined.

(** ** Enumeration over any list of names *)

Lemma dict_set_keys {V} (a : list (string * V)) (k : string) (x : V) :
  (k ∈ a.*1 -> (dict_set a k x).*1 = a.*1) /\
  (k ∉ a.*1 -> (dict_set a k x).*1 = a.*1 ++ [k]).
Proof.
  induction a as [|[k' v'] a [IH1 IH2]]; cbn [dict_set].
  - split; [intros H; inversion H | reflexivity].
  - destruct (str_eq k' k) eqn:E.
    + apply str_eq_true in E. subst k'. split; [reflexivity|].
      intros H. exfalso. apply H. left.
    + rewrite !fmap_cons. cbn [fst]. split; intros H.
      * rewrite IH1; [reflexivity|].
        apply elem_of_cons in H as [-> | H]; [|exact H].
        rewrite str_eq_refl in E. discriminate.
      * rewrite IH2; [reflexivity|]. intros Hin. apply H. right. exact Hin.
Qed.

Lemma dict_union_keys {V} (b a : list (string * V)) :
  NoDup (a.*1) ->
  NoDup ((dict_union a b).*1) /\
  forall k, k ∈ (dict_union a b).*1 <-> k ∈ a.*1 \/ k ∈ b.*1.
Proof.
  unfold dict_union. revert a.
  induction b as [|[k v] b IH]; intros a Hnd; cbn [fold_left].
  - split; [exact Hnd|]. intros k. rewrite fmap_nil, elem_of_nil. tauto.
  - cbn [fst snd]. destruct (dict_set_keys a k v) as [H1 H2].
    destruct (decide (k ∈ a.*1)) as [Hin | Hout].
    + destruct (IH (dict_set a k v)) as [Hn Hk];
        [rewrite (H1 Hin); exact Hnd|].
      split; [exact Hn|]. intros x. rewrite Hk, (H1 Hin), fmap_cons, elem_of_cons.
      cbn [fst]. split; [tauto|]. intros [H | [-> | H]]; auto.
    + destruct (IH (dict_set a k v)) as [Hn Hk].
      { rewrite (H2 Hout). apply NoDup_app. split; [exact Hnd|].
        split; [|apply NoDup_singleton].
        intros x Hx Hx'. apply list_elem_of_singleton in Hx'. subst. auto. }
      split; [exact Hn|]. intros x.
      rewrite Hk, (H2 Hout), elem_of_app, list_elem_of_singleton, fmap_cons,
        elem_of_cons. cbn [fst]. tauto.
Qed.

(** X11: on any non-empty list of variable names, repeated or not,
    [all_models] returns [2 ^ n] dicts for a list of [n] names, and each of
    them is a model whose keys are exactly the names of the list. *)
Theorem all_models_over_names (vs : list string) :
  vs <> [] -> variable_names vs ->
  exists models,
    all_models vs = Ret (Some models) /\
    length models = 2 ^ length vs /\
    forall m, m ∈ models ->
      NoDup (m.*1) /\ (forall k, k ∈ m.*1 <-> k ∈ vs) /\
      is_model m = Ret true.
Proof.
  intros Hne Hvar.
  assert (H : exists models,
    all_models vs = Ret (Some models) /\
    length models = 2 ^ length vs /\
    forall m, m ∈ models -> NoDup (m.*1) /\ (forall k, k ∈ m.*1 <-> k ∈ vs)).
  { induction vs as [|v vs IH]; [congruence|].
    apply Forall_cons in Hvar as [Hv Hvar].
    cbn [all_models]. rewrite Hv. cbn [bind assert].
    destruct vs as [|w vs].
    - eexists. split; [reflexivity|]. split; [reflexivity|].
      intros m Hm.
      assert (Hk : m.*1 = [v]).
      { apply elem_of_cons in Hm as [-> | Hm]; [reflexivity|].
        apply list_elem_of_singleton in Hm. subst. reflexivity. }
      rewrite Hk. split; [apply NoDup_singleton | reflexivity].
    - destruct IH as (tail & -> & Hlen & Htail); [discriminate | exact Hvar|].
      cbn [bind iterate]. eexists. split; [reflexivity|]. split.
      + rewrite length_fmap, list_prod_two, length_app, !length_fmap, Hlen.
        cbn [length]. rewrite !Nat.pow_succ_r'. lia.
      + intros m Hm. apply list_elem_of_fmap in Hm as ([a b] & -> & Hab).
        rewrite list_prod_two in Hab. cbn [fst snd].
        assert (Ha : a.*1 = [v] /\ b ∈ tail).
        { apply elem_of_app in Hab as [Hab | Hab];
            apply list_elem_of_fmap in Hab as (x & E & Hx);
            injection E as -> ->; auto. }
        destruct Ha as [Ha Hb]. destruct (Htail b Hb) as [_ Hkb].
        destruct (dict_union_keys b a) as [Hn Hk];
          [rewrite Ha; apply NoDup_singleton|].
        split; [exact Hn|]. intros k.
        rewrite Hk, Ha, Hkb, list_elem_of_singleton, (elem_of_cons (w :: vs)).
        tauto. }
  destruct H as (models & Ha & Hl & Hm). exists models.
  split; [exact Ha|]. split; [exact Hl|].
  intros m Hin. destruct (Hm m Hin) as [Hn Hk]. split; [exact Hn|].
  split; [exact Hk|]. apply is_model_keys_Ret.
  unfold variable_names in *. rewrite Forall_forall in *.
  intros k Hkm. apply Hvar, Hk, Hkm.
Qed.

Lemma all_models_over_names_witness :
  exists models,
    all_models ["p"; "q"; "p"] = Ret (Some models) /\
    length models = 2 ^ 3 /\
    forall m, m ∈ models ->
      NoDup (m.*1) /\ (forall k, k ∈ m.*1 <-> k ∈ ["p"; "q"; "p"]) /\
      is_model m = Ret true.
Proof.
  apply (all_models_over_names ["p"; "q"; "p"]).
  - discriminate.
  - repeat constructor.
Defined.

(** X12: a list in which some string is not a variable name is rejected by
    the assertion of [all_models], wherever the string stands in the list
    (the strings being non-empty). *)
Theorem all_models_rejects (vs : list string) :
  Forall (fun v => v <> "") vs -> ~ variable_names vs ->
  all_models vs = Raise AssertionError.
Proof.
  induction vs as [|v vs IH]; intros Hne Hnot.
  - exfalso. apply Hnot. constructor.
  - apply Forall_cons in Hne as [Hv Hne]. cbn [all_models].
    destruct v as [|c v]; [congruence|].
    destruct (is_variable (String c v)) as [[|]| |] eqn:E;
      [|reflexivity|discriminate|discriminate].
    cbn [bind assert].
    assert (Hrest : ~ variable_names vs).
    { intros H. apply Hnot. constructor; assumption. }
    rewrite (IH Hne Hrest). destruct vs; [|reflexivity].
    exfalso. apply Hrest. constructor.
Qed.

Lemma all_models_rejects_witness :
  all_models ["p"; "q"; "T"] = Raise AssertionError.
Proof.
  apply all_models_rejects.
  - repeat constructor; discriminate.
  - intros H. unfold variable_names in H. rewrite Forall_forall in H.
    specialize (H "T"). discriminate H. set_solver.
Defined.

(** ** What the classifiers decide *)

Lemma assoc_fmap_row (g : string -> bool) (vs : list string) (v : string) :
  v ∈ vs -> assoc ((fun k => (k, g k)) <$> vs) v = Some (g v).
Proof.
  induction vs as [|w vs IH]; intros H; [inversion H|].
  cbn [fmap list_fmap assoc]. destruct (str_eq w v) eqn:E.
  - apply str_eq_true in E. subst. reflexivity.
  - apply IH. apply elem_of_cons in H as [-> | H]; [|exact H].
    rewrite str_eq_refl in E. discriminate.
Qed.

Lemma forallb_false_exists {A} (h : A -> bool) (l : list A) :
  forallb h l = false -> exists x, x ∈ l /\ h x = false.
Proof.
  induction l as [|x l IH]; [discriminate|]. cbn [forallb].
  destruct (h x) eqn:E; cbn [andb]; intros H.
  - destruct (IH H) as (y & Hy & Hh). exists y. split; [right|]; assumption.
  - exists x. split; [left | exact E].
Qed.

Section ClassifierSemantics.

Variable set_order : Formula -> list string.

Hypothesis set_order_lists :
  forall formula, set_order formula ≡ₚ elements (variables formula).

(** A model of the formula has the same value as a row of its table. *)
Lemma model_has_row (formula : Formula) (m : Model) :
  sufficient m formula ->
  set_order formula <> [] ->
  exists row, row ∈ assignments (set_order formula) /\
              truth formula row = truth formula m.
Proof.
  intros Hs Hne.
  exists ((fun k => (k, default false (assoc m k))) <$> set_order formula).
  split.
  - apply assignments_total. rewrite <- list_fmap_compose.
    apply list_fmap_id.
  - apply truth_agree. intros v Hv.
    rewrite assoc_fmap_row
      by (apply (set_order_elem set_order set_order_lists), Hv).
    destruct (assoc_is_Some m v) as [b Hb].
    { apply (elem_of_list_to_set (C := gset string)). apply Hs, Hv. }
    rewrite Hb. reflexivity.
Qed.

Lemma no_variables_truth (formula : Formula) (m m' : Model) :
  set_order formula = [] -> truth formula m = truth formula m'.
Proof.
  intros E. apply truth_agree. intros v Hv.
  apply (set_order_elem set_order set_order_lists) in Hv.
  rewrite E in Hv. inversion Hv.
Qed.

Lemma tautology_value_all (formula : Formula) :
  tautology_value set_order formula = true <->
  forall m, is_model m = Ret true -> sufficient m formula ->
            truth formula m = true.
Proof.
  unfold tautology_value.
  pose proof (row_is_model set_order set_order_lists formula) as Hrows.
  pose proof (model_has_row formula) as Hrow.
  pose proof (no_variables_truth formula) as Hnone.
  destruct (set_order formula) as [|v vs] eqn:E.
  - split.
    + intros H m _ _. rewrite <- H. apply Hnone. reflexivity.
    + intros H. apply H; [reflexivity|].
      intros x Hx. apply (set_order_elem set_order set_order_lists) in Hx.
      rewrite E in Hx. inversion Hx.
  - rewrite forallb_forall. split.
    + intros H m _ Hs. destruct (Hrow m Hs) as (row & Hin & <-); [discriminate|].
      apply H, list_elem_of_In, Hin.
    + intros H row Hin. apply list_elem_of_In in Hin.
      destruct (Hrows row Hin) as [Hm Hs]. apply H; assumption.
Qed.

Lemma tautology_value_some (formula : Formula) :
  tautology_value set_order formula = false ->
  exists m, is_model m = Ret true /\ sufficient m formula /\
            truth formula m = false.
Proof.
  unfold tautology_value.
  pose proof (row_is_model set_order set_order_lists formula) as Hrows.
  destruct (set_order formula) as [|v vs] eqn:E.
  - intros H. exists [("p", true)]. split; [reflexivity|]. split; [|exact H].
    intros x Hx. apply (set_order_elem set_order set_order_lists) in Hx.
    rewrite E in Hx. inversion Hx.
  - intros H. apply forallb_false_exists in H as (row & Hin & Hf).
    destruct (Hrows row Hin) as [Hm Hs]. exists row. auto.
Qed.

(** X13: [is_tautology] returns true exactly for the formulas that
    [evaluate] makes true in every model sufficient for them, and
    [is_contradiction] exactly for those it makes false in every such
    model. *)
Theorem tautology_in_every_model (formula : Formula) :
  wf formula = true ->
  (is_tautology set_order formula = Ret true <->
   forall m, is_model m = Ret true -> sufficient m formula ->
             evaluate formula m = Ret true) /\
  (is_contradiction set_order formula = Ret true <->
   forall m, is_model m = Ret true -> sufficient m formula ->
             evaluate formula m = Ret false).
Proof.
  intros Hwf.
  assert (Hwn : wf (Unary "~" formula) = true) by exact Hwf.
  split.
  - rewrite (is_tautology_value set_order set_order_lists formula Hwf).
    split.
    + intros H m Hm Hs. rewrite evaluate_truth by assumption. f_equal.
      injection H as H. apply (proj1 (tautology_value_all formula) H); assumption.
    + intros H. f_equal. apply tautology_value_all. intros m Hm Hs.
      specialize (H m Hm Hs). rewrite evaluate_truth in H by assumption.
      congruence.
  - unfold is_contradiction.
    change (Formula_init "~" (Some formula) None) with (Ret (Unary "~" formula)).
    cbn [bind].
    rewrite (is_tautology_value set_order set_order_lists _ Hwn). cbn [bind].
    split.
    + intros H m Hm Hs. rewrite evaluate_truth by assumption. f_equal.
      destruct (tautology_value set_order (Unary "~" formula)) eqn:E;
        [|discriminate].
      pose proof (proj1 (tautology_value_all (Unary "~" formula)) E m Hm Hs)
        as Ht.
      cbn [truth] in Ht. apply negb_true_iff, Ht.
    + intros H.
      assert (E : tautology_value set_order (Unary "~" formula) = true).
      { apply tautology_value_all. intros m Hm Hs. cbn [truth].
        specialize (H m Hm Hs). rewrite evaluate_truth in H by assumption.
        injection H as ->. reflexivity. }
      rewrite E. reflexivity.
Qed.

(** X14: [is_satisfiable] returns true exactly for the formulas that
    [evaluate] makes true in some model sufficient for them. *)
Theorem satisfiable_in_some_model (formula : Formula) :
  wf formula = true ->
  is_satisfiable set_order formula = Ret true <->
  exists m, is_model m = Ret true /\ sufficient m formula /\
            evaluate formula m = Ret true.
Proof.
  intros Hwf.
  assert (Hwn : wf (Unary "~" formula) = true) by exact Hwf.
  unfold is_satisfiable, is_contradiction.
  change (Formula_init "~" (Some formula) None) with (Ret (Unary "~" formula)).
  cbn [bind].
  rewrite (is_tautology_value set_order set_order_lists _ Hwn). cbn [bind].
  destruct (tautology_value set_order (Unary "~" formula)) eqn:E; cbn [bind].
  - split; [discriminate|]. intros (m & Hm & Hs & He). exfalso.
    pose proof (proj1 (tautology_value_all (Unary "~" formula)) E m Hm Hs)
      as Ht.
    rewrite evaluate_truth in He by assumption. cbn [truth] in Ht.
    injection He as He. rewrite He in Ht. discriminate.
  - split; [intros _|reflexivity].
    destruct (tautology_value_some _ E) as (m & Hm & Hs & Ht).
    exists m. split; [exact Hm|]. split; [exact Hs|].
    rewrite evaluate_truth by assumption. f_equal. cbn [truth] in Ht.
    apply negb_false_iff, Ht.
Qed.

End ClassifierSemantics.

Lemma tautology_in_every_model_witness :
  let set_order := fun formula => elements (variables formula) in
  let formula := Binary "|" (Atom "p") (Unary "~" (Atom "p")) in
  (is_tautology set_order formula = Ret true <->
   forall m, is_model m = Ret true -> sufficient m formula ->
             evaluate formula m = Ret true) /\
  (is_contradiction set_order formula = Ret true <->
   forall m, is_model m = Ret true -> sufficient m formula ->
             evaluate formula m = Ret false).
Proof.
  intros set_order formula.
  apply (tautology_in_every_model set_order).
  - intros f. reflexivity.
  - reflexivity.
Defined.

Lemma satisfiable_in_some_model_witness :
  let set_order := fun formula => elements (variables formula) in
  let formula := Binary "&" (Atom "p") (Unary "~" (Atom "q")) in
  is_satisfiable set_order formula = Ret true <->
  exists m, is_model m = Ret true /\ sufficient m formula /\
            evaluate formula m = Ret true.
Proof.
  intros set_order formula.
  apply (satisfiable_in_some_model set_order).
  - intros f. reflexivity.
  - reflexivity.
Defined.

(** ** The clause of one row *)

Lemma matches_dict_get (m m' : Model) :
  (forall k, k ∈ m.*1 -> is_Some (assoc m' k)) ->
  matches m m' = true <->
  forall k v, (k, v) ∈ m -> dict_get m' k = Ret v.
Proof.
  intros Hsome. unfold matches. rewrite forallb_forall. split.
  - intros H k v Hin. specialize (H (k, v) (proj1 (list_elem_of_In _ _) Hin)).
    cbn [fst snd] in H. apply eqb_prop in H. rewrite dict_get_assoc.
    destruct (Hsome k) as [x Hx]; [apply list_elem_of_fmap; exists (k, v); auto|].
    rewrite Hx in *. cbn in H. subst. reflexivity.
  - intros H [k v] Hin. apply list_elem_of_In in Hin. cbn [fst snd].
    specialize (H k v Hin). rewrite dict_get_assoc in H.
    destruct (assoc m' k) as [x|]; [|discriminate].
    injection H as ->. apply eqb_reflx.
Qed.

Lemma variables_row_clause_keys (op : string) (lit : string * bool -> Formula)
    (m : Model) :
  m <> [] ->
  (forall item, item ∈ m -> variables (lit item) = {[ item.1 ]}) ->
  variables (row_clause op lit m) = list_to_set (m.*1).
Proof.
  intros Hne Hlit. destruct m as [|item rest]; [congruence|].
  unfold row_clause. apply set_eq. intros v.
  rewrite variables_chain, elem_of_list_to_set.
  change (lit item :: (lit <$> rest)) with (lit <$> item :: rest). split.
  - intros (c & Hc & Hv). apply list_elem_of_fmap in Hc as (x & -> & Hx).
    rewrite (Hlit x Hx) in Hv. apply elem_of_singleton in Hv. subst.
    apply list_elem_of_fmap. eauto.
  - intros Hv. apply list_elem_of_fmap in Hv as (x & -> & Hx).
    exists (lit x). split; [apply list_elem_of_fmap; eauto|].
    rewrite (Hlit x Hx). apply elem_of_singleton. reflexivity.
Qed.

Lemma variables_literal_eq (item : string * bool) :
  is_variable item.1 = Ret true -> variables (literal item) = {[ item.1 ]}.
Proof.
  intros H. destruct item as [k [|]]; unfold literal; cbn [fst snd variables] in *;
    rewrite H; reflexivity.
Qed.

Lemma variables_dual_literal_eq (item : string * bool) :
  is_variable item.1 = Ret true -> variables (dual_literal item) = {[ item.1 ]}.
Proof.
  intros H. destruct item as [k [|]]; unfold dual_literal;
    cbn [fst snd variables] in *; rewrite H; reflexivity.
Qed.

Lemma item_is_name (m : Model) (item : string * bool) :
  variable_names (m.*1) -> item ∈ m -> is_variable item.1 = Ret true.
Proof.
  unfold variable_names. rewrite Forall_forall. intros H Hin.
  apply H. apply list_elem_of_fmap. eauto.
Qed.

Lemma sufficient_keys (m' : Model) (f : Formula) (keys : list string) :
  variables f = list_to_set keys -> sufficient m' f ->
  forall k, k ∈ keys -> is_Some (assoc m' k).
Proof.
  intros Hv Hs k Hk. apply assoc_is_Some.
  apply (elem_of_list_to_set (C := gset string)). apply Hs. rewrite Hv.
  apply elem_of_list_to_set, Hk.
Qed.

(** X15: [_synthesize_for_model] fails its assertion on the empty model; on
    a model with at least one variable it returns a formula over exactly the
    variables of the model that [evaluate] makes true in the models that
    bind each of these variables as the given model does, and false in every
    other model. *)
Theorem synthesize_for_model_decides (model : Model) :
  _synthesize_for_model [] = Raise AssertionError /\
  (model <> [] -> NoDup (model.*1) -> variable_names (model.*1) ->
   exists formula,
     _synthesize_for_model model = Ret formula /\
     wf formula = true /\
     variables formula = list_to_set (model.*1) /\
     forall m', is_model m' = Ret true -> sufficient m' formula ->
       exists b, evaluate formula m' = Ret b /\
         (b = true <->
          forall k v, (k, v) ∈ model -> dict_get m' k = Ret v)).
Proof.
  split; [reflexivity|]. intros Hne Hnd Hvar.
  exists (row_clause "&" literal model).
  assert (Hv : variables (row_clause "&" literal model)
               = list_to_set (model.*1)).
  { apply variables_row_clause_keys; [exact Hne|]. intros item Hin.
    apply variables_literal_eq, (item_is_name model), Hin. exact Hvar. }
  assert (Hwf : wf (row_clause "&" literal model) = true).
  { apply wf_row_clause; [reflexivity | exact Hne|]. intros item Hin.
    apply wf_literal, (item_is_name model), Hin. exact Hvar. }
  split; [apply synthesize_for_model_Ret; assumption|].
  split; [exact Hwf|]. split; [exact Hv|].
  intros m' Hm Hs. exists (truth (row_clause "&" literal model) m').
  split; [apply evaluate_truth; assumption|].
  rewrite truth_row_conjunction by assumption.
  apply matches_dict_get. eapply sufficient_keys; eauto.
Qed.

Lemma synthesize_for_model_decides_witness :
  exists formula,
    _synthesize_for_model [("p", true); ("q", false)] = Ret formula /\
    wf formula = true /\
    variables formula = list_to_set ([("p", true); ("q", false)].*1) /\
    forall m', is_model m' = Ret true -> sufficient m' formula ->
      exists b, evaluate formula m' = Ret b /\
        (b = true <->
         forall k v, (k, v) ∈ [("p", true); ("q", false)] ->
                     dict_get m' k = Ret v).
Proof.
  apply (proj2 (synthesize_for_model_decides [("p", true); ("q", false)])).
  - discriminate.
  - apply (bool_decide_eq_true_1 (NoDup ["p"; "q"])). reflexivity.
  - repeat constructor.
Defined.

(** X16: [_synthesize_for_all_except_model] fails its assertion on the empty
    model; on a model with at least one variable it returns a formula over
    exactly the variables of the model that [evaluate] makes false in the
    models that bind each of these variables as the given model does, and
    true in every other model. *)
Theorem synthesize_for_all_except_model_decides (model : Model) :
  _synthesize_for_all_except_model [] = Raise AssertionError /\
  (model <> [] -> variable_names (model.*1) ->
   exists formula,
     _synthesize_for_all_except_model model = Ret formula /\
     wf formula = true /\
     variables formula = list_to_set (model.*1) /\
     forall m', is_model m' = Ret true -> sufficient m' formula ->
       exists b, evaluate formula m' = Ret b /\
         (b = false <->
          forall k v, (k, v) ∈ model -> dict_get m' k = Ret v)).
Proof.
  split; [reflexivity|]. intros Hne Hvar.
  exists (row_clause "|" dual_literal model).
  assert (Hv : variables (row_clause "|" dual_literal model)
               = list_to_set (model.*1)).
  { apply variables_row_clause_keys; [exact Hne|]. intros item Hin.
    apply variables_dual_literal_eq, (item_is_name model), Hin. exact Hvar. }
  assert (Hwf : wf (row_clause "|" dual_literal model) = true).
  { apply wf_row_clause; [reflexivity | exact Hne|]. intros item Hin.
    apply wf_dual_literal, (item_is_name model), Hin. exact Hvar. }
  split; [apply synthesize_for_all_except_model_Ret; assumption|].
  split; [exact Hwf|]. split; [exact Hv|].
  intros m' Hm Hs. exists (truth (row_clause "|" dual_literal model) m').
  split; [apply evaluate_truth; assumption|].
  rewrite truth_row_disjunction by assumption. rewrite negb_false_iff.
  apply matches_dict_get. eapply sufficient_keys; eauto.
Qed.

Lemma synthesize_for_all_except_model_decides_witness :
  exists formula,
    _synthesize_for_all_except_model [("p", true); ("q", false)] = Ret formula /\
    wf formula = true /\
    variables formula = list_to_set ([("p", true); ("q", false)].*1) /\
    forall m', is_model m' = Ret true -> sufficient m' formula ->
      exists b, evaluate formula m' = Ret b /\
        (b = false <->
         forall k v, (k, v) ∈ [("p", true); ("q", false)] ->
                     dict_get m' k = Ret v).
Proof.
  apply (proj2 (synthesize_for_all_except_model_decides
                  [("p", true); ("q", false)])).
  - discriminate.
  - repeat constructor.
Defined.

(** ** The shape of the synthesized formulas *)

Lemma operators_chain (op : string) (item : Formula) (items : list Formula) o :
  o ∈ operators (chain op item items) ->
  o = op \/ exists c, c ∈ item :: items /\ o ∈ operators c.
Proof.
  unfold chain. revert item.
  induction items as [|c items IH]; intros item; cbn [fold_left].
  - intros H. right. exists item. split; [left | exact H].
  - intros H. apply IH in H as [-> | (d & Hd & Ho)]; [left; reflexivity|].
    apply elem_of_cons in Hd as [-> | Hd].
    + cbn [operators] in Ho. apply elem_of_union in Ho as [Ho | Ho].
      * left. apply elem_of_singleton in Ho. exact Ho.
      * right. apply elem_of_union in Ho as [Ho | Ho].
        -- exists item. split; [left | exact Ho].
        -- exists c. split; [right; left | exact Ho].
    + right. exists d. split; [right; right; exact Hd | exact Ho].
Qed.

Lemma variables_chain_same (op : string) (item : Formula)
    (items : list Formula) (names : gset string) :
  (forall c, c ∈ item :: items -> variables c = names) ->
  variables (chain op item items) = names.
Proof.
  intros H. apply set_eq. intros v. rewrite variables_chain. split.
  - intros (c & Hc & Hv). rewrite <- (H c Hc). exact Hv.
  - intros Hv. exists item. split; [left|]. rewrite (H item); [exact Hv | left].
Qed.

Lemma operators_literal (item : string * bool) (o : string) :
  is_variable item.1 = Ret true ->
  (o ∈ operators (literal item) -> o = "~") /\
  (o ∈ operators (dual_literal item) -> o = "~").
Proof.
  intros H. destruct item as [k [|]]; unfold literal, dual_literal;
    cbn [fst snd operators] in *; rewrite H; split; intros Ho;
    repeat (apply elem_of_union in Ho as [Ho | Ho]);
    try (apply elem_of_empty in Ho; contradiction);
    apply elem_of_singleton in Ho; exact Ho.
Qed.

Lemma operators_row_clause (op : string) (lit : string * bool -> Formula)
    (m : Model) (o : string) :
  m <> [] ->
  (forall item, item ∈ m -> o ∈ operators (lit item) -> o = "~") ->
  o ∈ operators (row_clause op lit m) -> o = op \/ o = "~".
Proof.
  intros Hne Hlit. destruct m as [|item rest]; [congruence|].
  unfold row_clause. intros Ho.
  apply operators_chain in Ho as [-> | (c & Hc & Ho)]; [left; reflexivity|].
  change (lit item :: (lit <$> rest)) with (lit <$> item :: rest) in Hc.
  apply list_elem_of_fmap in Hc as (x & -> & Hx). right. eauto.
Qed.

Lemma operators_pair (op v o : string) :
  is_variable v = Ret true ->
  o ∈ operators (Binary op (Atom v) (Unary "~" (Atom v))) -> o = op \/ o = "~".
Proof.
  intros H. cbn [operators]. rewrite H. intros Ho.
  repeat (apply elem_of_union in Ho as [Ho | Ho]);
    try (apply elem_of_empty in Ho; contradiction);
    apply elem_of_singleton in Ho; auto.
Qed.

Section Shape.

Variable vs : list string.
Hypothesis vs_nonempty : vs <> [].
Hypothesis vs_NoDup : NoDup vs.
Hypothesis vs_names : variable_names vs.

Variable values : list bool.
Hypothesis values_fit : length values <= 2 ^ length vs.

Lemma synthesize_form :
  synthesize vs values =
  join "|" (if existsb (fun b => Bool.eqb b true) values
            then row_clause "&" literal <$> pick true values (assignments vs)
            else contradiction_of <$> vs).
Proof.
  unfold synthesize.
  replace (0 <? length vs)%nat with true
    by (destruct vs; [congruence | reflexivity]).
  cbn [assert bind]. rewrite all_models_assignments by assumption.
  cbn [bind].
  rewrite (synthesize_loop_pick (assignments vs) (row_clause "&" literal)
             values (assignments vs) 0 ([], false)).
  - cbn [fst snd app orb bind].
    destruct (existsb (fun b => Bool.eqb b true) values) eqn:E; cbn [negb bind].
    + reflexivity.
    + rewrite (pick_empty true) by exact E.
      rewrite (mapM_Ret _ contradiction_of); [reflexivity|].
      intros x Hx. pose proof vs_names as Hvar.
      unfold variable_names in Hvar. rewrite Forall_forall in Hvar.
      rewrite positive_Ret, negative_Ret by (apply Hvar, Hx). reflexivity.
  - reflexivity.
  - rewrite assignments_length. exact values_fit.
  - intros m Hm. apply synthesize_for_model_Ret;
      [eapply row_nonempty | eapply row_NoDup | eapply row_names]; eauto.
Qed.

Lemma synthesize_cnf_form :
  synthesize_cnf vs values =
  join "&" (if existsb (fun b => Bool.eqb b false) values
            then row_clause "|" dual_literal
                   <$> pick false values (assignments vs)
            else tautology_of <$> vs).
Proof.
  unfold synthesize_cnf.
  replace (0 <? length vs)%nat with true
    by (destruct vs; [congruence | reflexivity]).
  cbn [assert bind]. rewrite all_models_assignments by assumption.
  cbn [bind].
  rewrite (synthesize_cnf_loop_pick (assignments vs)
             (row_clause "|" dual_literal)
             values (assignments vs) 0 ([], false)).
  - cbn [fst snd app orb bind].
    destruct (existsb (fun b => Bool.eqb b false) values) eqn:E; cbn [negb bind].
    + reflexivity.
    + rewrite (pick_empty false) by exact E.
      rewrite (mapM_Ret _ tautology_of); [reflexivity|].
      intros x Hx. pose proof vs_names as Hvar.
      unfold variable_names in Hvar. rewrite Forall_forall in Hvar.
      rewrite positive_Ret, negative_Ret by (apply Hvar, Hx). reflexivity.
  - reflexivity.
  - rewrite assignments_length. exact values_fit.
  - intros m Hm. apply synthesize_for_all_except_model_Ret;
      [eapply row_nonempty | eapply row_names]; eauto.
Qed.

Lemma rows_joined (flag : bool) (outer inner : string)
    (lit : string * bool -> Formula) :
  (forall item, is_variable item.1 = Ret true ->
     variables (lit item) = {[ item.1 ]} /\
     forall o, o ∈ operators (lit item) -> o = "~") ->
  outer = "&" \/ outer = "|" -> inner = "&" \/ inner = "|" ->
  existsb (fun b => Bool.eqb b flag) values = true ->
  exists f,
    join outer (row_clause inner lit <$> pick flag values (assignments vs))
    = Ret f /\
    variables f = list_to_set vs /\
    forall o, o ∈ operators f -> o = "~" \/ o = "&" \/ o = "|".
Proof.
  intros Hlit Houter Hinner E.
  assert (Hrow : forall m, m ∈ assignments vs ->
            variables (row_clause inner lit m) = list_to_set vs /\
            forall o, o ∈ operators (row_clause inner lit m) ->
                      o = "~" \/ o = "&" \/ o = "|").
  { intros m Hm. split.
    - rewrite variables_row_clause_keys.
      + rewrite (assignments_keys vs m Hm). reflexivity.
      + eapply row_nonempty; eauto.
      + intros item Hin. apply Hlit, (item_is_name m); [|exact Hin].
        eapply row_names; eauto.
    - intros o Ho. apply operators_row_clause in Ho.
      + destruct Ho as [-> | ->]; [destruct Hinner as [-> | ->]|]; auto.
      + eapply row_nonempty; eauto.
      + intros item Hin. apply Hlit, (item_is_name m); [|exact Hin].
        eapply row_names; eauto. }
  pose proof (pick_nonempty flag values (assignments vs)
                ltac:(rewrite assignments_length; exact values_fit) E) as Hne.
  pose proof (pick_subset flag values (assignments vs)) as Hsub.
  destruct (pick flag values (assignments vs)) as [|m0 rest]; [congruence|].
  cbn [fmap list_fmap]. rewrite join_Ret by (destruct Houter; auto).
  eexists. split; [reflexivity|].
  assert (Hall : forall d, d ∈ row_clause inner lit m0
                             :: (row_clause inner lit <$> rest) ->
            variables d = list_to_set vs /\
            forall o, o ∈ operators d -> o = "~" \/ o = "&" \/ o = "|").
  { intros d Hd.
    change (row_clause inner lit m0 :: (row_clause inner lit <$> rest))
      with (row_clause inner lit <$> m0 :: rest) in Hd.
    apply list_elem_of_fmap in Hd as (m & -> & Hm). apply Hrow, Hsub, Hm. }
  split.
  - apply variables_chain_same. intros d Hd. apply Hall, Hd.
  - intros o Ho. apply operators_chain in Ho as [-> | (d & Hd & Ho)].
    + destruct Houter as [-> | ->]; auto.
    + apply (Hall d Hd), Ho.
Qed.

Lemma names_joined (outer inner : string) :
  outer = "&" \/ outer = "|" -> inner = "&" \/ inner = "|" ->
  exists f,
    join outer ((fun v => Binary inner (Atom v) (Unary "~" (Atom v))) <$> vs)
    = Ret f /\
    variables f = list_to_set vs /\
    forall o, o ∈ operators f -> o = "~" \/ o = "&" \/ o = "|".
Proof.
  intros Houter Hinner.
  pose proof vs_names as Hvar. unfold variable_names in Hvar.
  rewrite Forall_forall in Hvar.
  pose proof vs_nonempty as Hne.
  destruct vs as [|v rest]; [congruence|].
  set (pair_of := fun v => Binary inner (Atom v) (Unary "~" (Atom v))).
  assert (Hl : pair_of v :: (pair_of <$> rest) = pair_of <$> v :: rest)
    by reflexivity.
  change (pair_of <$> v :: rest) with (pair_of v :: (pair_of <$> rest)).
  rewrite join_Ret by (destruct Houter; auto).
  eexists. split; [reflexivity|]. split.
  - apply set_eq. intros x. rewrite variables_chain, elem_of_list_to_set, Hl.
    split.
    + intros (c & Hc & Hx). apply list_elem_of_fmap in Hc as (y & -> & Hy).
      unfold pair_of in Hx. cbn [variables] in Hx. rewrite (Hvar y Hy) in Hx.
      rewrite union_idemp_L in Hx. apply elem_of_singleton in Hx. subst.
      exact Hy.
    + intros Hx. exists (pair_of x). split; [apply list_elem_of_fmap; eauto|].
      unfold pair_of. cbn [variables]. rewrite (Hvar x Hx).
      apply elem_of_union. left. apply elem_of_singleton. reflexivity.
  - intros o Ho. apply operators_chain in Ho as [-> | (d & Hd & Ho)].
    + destruct Houter as [-> | ->]; auto.
    + rewrite Hl in Hd.
      apply list_elem_of_fmap in Hd as (y & -> & Hy).
      apply operators_pair in Ho; [|apply Hvar, Hy].
      destruct Ho as [-> | ->]; [destruct Hinner as [-> | ->]|]; auto.
Qed.

End Shape.

(** X17: for a non-empty list of distinct variable names and a table of at
    most [2 ^ n] values, the formulas that [synthesize] and [synthesize_cnf]
    return mention every variable of the list and no other, and are built
    from [~], [&] and [|] alone: no constant and no implication occurs in
    them. *)
Theorem synthesized_shape (vs : list string) (values : list bool) :
  vs <> [] -> NoDup vs -> variable_names vs ->
  length values <= 2 ^ length vs ->
  exists f g,
    synthesize vs values = Ret f /\ synthesize_cnf vs values = Ret g /\
    variables f = list_to_set vs /\ variables g = list_to_set vs /\
    forall o, o ∈ operators f ∪ operators g ->
              o = "~" \/ o = "&" \/ o = "|".
Proof.
  intros Hne Hnd Hvar Hlen.
  assert (Hlit : forall item, is_variable item.1 = Ret true ->
            variables (literal item) = {[ item.1 ]} /\
            forall o, o ∈ operators (literal item) -> o = "~").
  { intros item Hi. split; [apply variables_literal_eq, Hi|].
    intros o. apply (operators_literal item o Hi). }
  assert (Hdual : forall item, is_variable item.1 = Ret true ->
            variables (dual_literal item) = {[ item.1 ]} /\
            forall o, o ∈ operators (dual_literal item) -> o = "~").
  { intros item Hi. split; [apply variables_dual_literal_eq, Hi|].
    intros o. apply (operators_literal item o Hi). }
  assert (Hf : exists f, synthesize vs values = Ret f /\
                 variables f = list_to_set vs /\
                 forall o, o ∈ operators f -> o = "~" \/ o = "&" \/ o = "|").
  { rewrite (synthesize_form vs Hne Hnd Hvar values Hlen).
    destruct (existsb (fun b => Bool.eqb b true) values) eqn:E.
    - apply (rows_joined vs Hne Hvar values Hlen true "|" "&" literal);
        auto.
    - apply (names_joined vs Hne Hnd Hvar values Hlen "|" "&"); auto. }
  assert (Hg : exists g, synthesize_cnf vs values = Ret g /\
                 variables g = list_to_set vs /\
                 forall o, o ∈ operators g -> o = "~" \/ o = "&" \/ o = "|").
  { rewrite (synthesize_cnf_form vs Hne Hnd Hvar values Hlen).
    destruct (existsb (fun b => Bool.eqb b false) values) eqn:E.
    - apply (rows_joined vs Hne Hvar values Hlen false "&" "|"
               dual_literal); auto.
    - apply (names_joined vs Hne Hnd Hvar values Hlen "&" "|"); auto. }
  destruct Hf as (f & Hf & Hvf & Hof). destruct Hg as (g & Hg & Hvg & Hog).
  exists f, g. repeat (split; [assumption|]).
  intros o Ho. apply elem_of_union in Ho as [Ho | Ho]; auto.
Qed.

Lemma synthesized_shape_witness :
  exists f g,
    synthesize ["p"; "q"] [true; false; true] = Ret f /\
    synthesize_cnf ["p"; "q"] [true; false; true] = Ret g /\
    variables f = list_to_set ["p"; "q"] /\
    variables g = list_to_set ["p"; "q"] /\
    forall o, o ∈ operators f ∪ operators g ->
              o = "~" \/ o = "&" \/ o = "|".
Proof.
  apply (synthesized_shape ["p"; "q"] [true; false; true]).
  - discriminate.
  - apply (bool_decide_eq_true_1 (NoDup ["p"; "q"])). reflexivity.
  - repeat constructor.
  - cbn. lia.
Defined.

(** ** Tables of another length *)

Lemma synthesize_loop_app models (a b : list bool) :
  forall ind state,
    synthesize_loop models (a ++ b) ind state =
    (let* state' := synthesize_loop models a ind state in
     synthesize_loop models b (ind + length a) state').
Proof.
  induction a as [|flag a IH]; intros ind state.
  - cbn [app synthesize_loop bind length]. rewrite Nat.add_0_r. reflexivity.
  - cbn [app synthesize_loop length]. rewrite Nat.add_succ_r.
    destruct flag; [|apply IH].
    destruct (subscript models ind) as [m| |]; cbn [bind]; try reflexivity.
    destruct (_synthesize_for_model m) as [c| |]; cbn [bind]; try reflexivity.
    apply IH.
Qed.

Lemma synthesize_cnf_loop_app models (a b : list bool) :
  forall ind state,
    synthesize_cnf_loop models (a ++ b) ind state =
    (let* state' := synthesize_cnf_loop models a ind state in
     synthesize_cnf_loop models b (ind + length a) state').
Proof.
  induction a as [|flag a IH]; intros ind state.
  - cbn [app synthesize_cnf_loop bind length]. rewrite Nat.add_0_r.
    reflexivity.
  - cbn [app synthesize_cnf_loop length]. rewrite Nat.add_succ_r.
    destruct flag; cbn [negb]; [apply IH|].
    destruct (subscript models ind) as [m| |]; cbn [bind]; try reflexivity.
    destruct (_synthesize_for_all_except_model m) as [c| |]; cbn [bind];
      try reflexivity.
    apply IH.
Qed.

(** X18: entries of [False] at the end of the table do not change the
    formula that [synthesize] returns, and entries of [True] at the end do
    not change the formula of [synthesize_cnf]: a table shorter than
    [2 ^ n] is read as if the missing rows were [False], respectively
    [True]. *)
Theorem synthesize_trailing (vs : list string) (values : list bool) (k : nat) :
  synthesize vs (values ++ replicate k false) = synthesize vs values /\
  synthesize_cnf vs (values ++ replicate k true) = synthesize_cnf vs values.
Proof.
  split.
  - unfold synthesize. destruct (assert _); cbn [bind]; try reflexivity.
    destruct (all_models vs) as [models| |]; cbn [bind]; try reflexivity.
    rewrite synthesize_loop_app.
    destruct (synthesize_loop models values 0 ([], false)) as [state| |];
      cbn [bind]; try reflexivity.
    rewrite synthesize_loop_all_false; [reflexivity|].
    intros b Hb. apply elem_of_replicate in Hb as [-> _]. reflexivity.
  - unfold synthesize_cnf. destruct (assert _); cbn [bind]; try reflexivity.
    destruct (all_models vs) as [models| |]; cbn [bind]; try reflexivity.
    rewrite synthesize_cnf_loop_app.
    destruct (synthesize_cnf_loop models values 0 ([], false)) as [state| |];
      cbn [bind]; try reflexivity.
    rewrite synthesize_cnf_loop_all_true; [reflexivity|].
    intros b Hb. apply elem_of_replicate in Hb as [-> _]. reflexivity.
Qed.

Lemma synthesize_loop_beyond (all : list Model) (clause : Model -> Formula)
    (values : list bool) :
  forall ind state j,
    values !! j = Some true -> length all <= ind + j ->
    (forall m, m ∈ all -> _synthesize_for_model m = Ret (clause m)) ->
    synthesize_loop (Some all) values ind state = Raise IndexError.
Proof.
  induction values as [|flag values IH]; intros ind state j Hj Hlen Hcl;
    [discriminate|].
  cbn [synthesize_loop]. destruct flag.
  - unfold subscript. cbn [iterate bind].
    destruct (all !! ind) as [m|] eqn:E; [|reflexivity]. cbn [bind].
    rewrite Hcl by (eapply list_elem_of_lookup_2, E). cbn [bind].
    apply lookup_lt_Some in E. destruct j as [|j]; [lia|].
    apply (IH _ _ j); [exact Hj | lia | exact Hcl].
  - destruct j as [|j]; [discriminate|].
    apply (IH _ _ j); [exact Hj | lia | exact Hcl].
Qed.

Lemma synthesize_cnf_loop_beyond (all : list Model) (clause : Model -> Formula)
    (values : list bool) :
  forall ind state j,
    values !! j = Some false -> length all <= ind + j ->
    (forall m, m ∈ all -> _synthesize_for_all_except_model m = Ret (clause m)) ->
    synthesize_cnf_loop (Some all) values ind state = Raise IndexError.
Proof.
  induction values as [|flag values IH]; intros ind state j Hj Hlen Hcl;
    [discriminate|].
  cbn [synthesize_cnf_loop]. destruct flag; cbn [negb].
  - destruct j as [|j]; [discriminate|].
    apply (IH _ _ j); [exact Hj | lia | exact Hcl].
  - unfold subscript. cbn [iterate bind].
    destruct (all !! ind) as [m|] eqn:E; [|reflexivity]. cbn [bind].
    rewrite Hcl by (eapply list_elem_of_lookup_2, E). cbn [bind].
    apply lookup_lt_Some in E. destruct j as [|j]; [lia|].
    apply (IH _ _ j); [exact Hj | lia | exact Hcl].
Qed.

(** X19: both synthesizers fail their assertion on an empty list of
    variables; and on a non-empty list of distinct variable names a table
    that is too long is an [IndexError] as soon as an entry past row
    [2 ^ n] calls for a clause: a [True] for [synthesize], a [False] for
    [synthesize_cnf]. *)
Theorem synthesize_bounds (vs : list string) (values : list bool) (j : nat) :
  synthesize [] values = Raise AssertionError /\
  synthesize_cnf [] values = Raise AssertionError /\
  (vs <> [] -> NoDup vs -> variable_names vs -> 2 ^ length vs <= j ->
   (values !! j = Some true -> synthesize vs values = Raise IndexError) /\
   (values !! j = Some false -> synthesize_cnf vs values = Raise IndexError)).
Proof.
  split; [reflexivity|]. split; [reflexivity|].
  intros Hne Hnd Hvar Hj.
  assert (Hpos : (0 <? length vs)%nat = true)
    by (destruct vs; [congruence | reflexivity]).
  split; intros Hv.
  - unfold synthesize. rewrite Hpos. cbn [assert bind].
    rewrite all_models_assignments by assumption. cbn [bind].
    rewrite (synthesize_loop_beyond (assignments vs) (row_clause "&" literal)
               values 0 ([], false) j); [reflexivity | exact Hv | |].
    + rewrite assignments_length. exact Hj.
    + intros m Hm. apply synthesize_for_model_Ret;
        [eapply row_nonempty | eapply row_NoDup | eapply row_names]; eauto.
  - unfold synthesize_cnf. rewrite Hpos. cbn [assert bind].
    rewrite all_models_assignments by assumption. cbn [bind].
    rewrite (synthesize_cnf_loop_beyond (assignments vs)
               (row_clause "|" dual_literal)
               values 0 ([], false) j); [reflexivity | exact Hv | |].
    + rewrite assignments_length. exact Hj.
    + intros m Hm. apply synthesize_for_all_except_model_Ret;
        [eapply row_nonempty | eapply row_names]; eauto.
Qed.

Lemma synthesize_bounds_witness :
  synthesize ["p"] [false; false; true] = Raise IndexError.
Proof.
  apply (proj2 (proj2 (synthesize_bounds ["p"] [false; false; true] 2))).
  - discriminate.
  - apply (bool_decide_eq_true_1 (NoDup ["p"])). reflexivity.
  - repeat constructor.
  - cbn. lia.
  - reflexivity.
Defined.

(** ** The checks of [substitute_operators] *)

Lemma dict_get_NoDup {V} (m : list (string * V)) (k : string) (x : V) :
  NoDup (m.*1) -> (k, x) ∈ m -> dict_get m k = Ret x.
Proof.
  induction m as [|[k' x'] m IH]; intros Hnd Hin; [inversion Hin|].
  rewrite fmap_cons in Hnd. cbn [fst] in Hnd.
  apply NoDup_cons in Hnd as [Hk Hnd].
  cbn [dict_get]. apply elem_of_cons in Hin as [Heq | Hin].
  - injection Heq as -> ->. rewrite str_eq_refl. reflexivity.
  - destruct (str_eq k' k) eqn:E; [|apply IH; assumption].
    apply str_eq_true in E. subst k'. exfalso. apply Hk.
    apply list_elem_of_fmap. exists (k, x). auto.
Qed.

(** X20: [substitute_operators] never returns a formula. It returns [None]
    when every key of the map is a constant or an operator and every
    template has its variables among [p] and [q], and fails its assertion
    as soon as a key or a template is otherwise. *)
Theorem substitute_operators_checks (self : Formula)
    (substitution_map : list (string * Formula)) :
  NoDup (substitution_map.*1) ->
  substitute_operators self substitution_map =
  if forallb (fun item : string * Formula =>
                (is_constant item.1 || is_unary item.1 || is_binary item.1)
                && bool_decide (variables item.2 ⊆ {[ "p"; "q" ]}))
             substitution_map
  then Ret None else Raise AssertionError.
Proof.
  intros Hnd. unfold substitute_operators.
  assert (H : forall items,
    (forall item, item ∈ items -> item ∈ substitution_map) ->
    check_operator_keys substitution_map (items.*1) =
    if forallb (fun item : string * Formula =>
                  (is_constant item.1 || is_unary item.1 || is_binary item.1)
                  && bool_decide (variables item.2 ⊆ {[ "p"; "q" ]})) items
    then Ret tt else Raise AssertionError).
  { induction items as [|[op t] items IH]; intros Hsub; [reflexivity|].
    rewrite fmap_cons. cbn [fst snd check_operator_keys forallb].
    destruct (is_constant op || is_unary op || is_binary op);
      [|reflexivity].
    cbn [assert bind andb].
    rewrite (dict_get_NoDup substitution_map op t Hnd) by (apply Hsub; left).
    cbn [bind].
    destruct (bool_decide (variables t ⊆ {["p"; "q"]})); [|reflexivity].
    cbn [assert bind]. apply IH. intros item Hin. apply Hsub. right.
    exact Hin. }
  rewrite H by auto.
  destruct (forallb _ substitution_map); reflexivity.
Qed.

Lemma substitute_operators_checks_witness :
  substitute_operators (Atom "x")
    [("&", Unary "~" (Binary "|" (Unary "~" (Atom "p")) (Unary "~" (Atom "q"))));
     ("T", Binary "|" (Atom "r") (Unary "~" (Atom "r")))]
  = Raise AssertionError.
Proof.
  apply (substitute_operators_checks (Atom "x")).
  apply (bool_decide_eq_true_1 (NoDup ["&"; "T"])). reflexivity.
Defined.

(** ** The parser on a name, and the constructor *)

(** X21: on a string that starts with a letter from [p] to [z],
    [_parse_prefix] returns the variable made of the letter and every digit
    that follows it, never a shorter name, with the remainder, which does
    not start with a digit. *)
Theorem parse_prefix_whole_name (fuel : nat) (c : ascii) (s : string) :
  char_le "p" c = true -> char_le c "z" = true ->
  exists digits rest,
    _parse_prefix (S fuel) (String c s)
    = Ret (Some (Atom (String c digits)), rest) /\
    s = digits +:+ rest /\
    all_decimal digits = true /\
    match rest with
    | "" => True
    | String d _ => char_isdecimal d = false
    end.
Proof.
  intros Hp Hz.
  destruct (parse_str_name_token c s Hp Hz) as (digits & rest & Hps & Hs & Hv & Hr).
  exists digits, rest. split; [|split; [exact Hs|split; [|exact Hr]]].
  - cbn [_parse_prefix str_empty]. rewrite Hps. cbn [bind]. rewrite Hv.
    cbn [bind orb]. unfold Formula_init. rewrite Hv. reflexivity.
  - apply is_variable_shape in Hv as (c' & tl & E & _ & _ & Htl).
    injection E as <- <-. exact Htl.
Qed.

Lemma parse_prefix_whole_name_witness :
  exists digits rest,
    _parse_prefix 1 "x12->y"
    = Ret (Some (Atom (String "x" digits)), rest) /\
    "12->y" = digits +:+ rest /\
    all_decimal digits = true /\
    match rest with
    | "" => True
    | String d _ => char_isdecimal d = false
    end.
Proof.
  apply (parse_prefix_whole_name 0 "x" "12->y"); reflexivity.
Defined.

(** X22: the constructor and the trees: a node that [__init__] returns from
    well-formed operands is well formed, with the root and the operands it
    was given, and every well-formed tree is what [__init__] returns from
    its own root and operands. *)
Theorem Formula_init_builds :
  (forall root x y f,
     Formula_init root x y = Ret f ->
     (forall g, x = Some g -> wf g = true) ->
     (forall g, y = Some g -> wf g = true) ->
     wf f = true /\
     match f with
     | Atom r => r = root /\ x = None /\ y = None
     | Unary r g => r = root /\ x = Some g /\ y = None
     | Binary r a b => r = root /\ x = Some a /\ y = Some b
     end) /\
  (forall f, wf f = true ->
     match f with
     | Atom r => Formula_init r None None
     | Unary r g => Formula_init r (Some g) None
     | Binary r a b => Formula_init r (Some a) (Some b)
     end = Ret f).
Proof.
  split.
  - intros root x y f H Hx Hy. apply Formula_init_Ret in H.
    destruct f as [r|r g|r a b]; destruct H as (-> & -> & -> & Hw).
    + auto.
    + split; [|auto]. cbn [wf]. rewrite Hw, (Hx g eq_refl). reflexivity.
    + split; [|auto]. cbn [wf].
      rewrite Hw, (Hx a eq_refl), (Hy b eq_refl). reflexivity.
  - intros f Hwf. destruct f as [r|r g|r a b]; cbn [wf] in Hwf.
    + unfold Formula_init. destruct (is_variable r) as [v| |]; try discriminate.
      cbn [bind]. rewrite Hwf. reflexivity.
    + apply andb_true_iff in Hwf as [Hu _]. apply is_unary_eq in Hu. subst.
      reflexivity.
    + apply andb_true_iff in Hwf as [Hwf _].
      apply andb_true_iff in Hwf as [Hb _].
      apply Formula_init_Binary, Hb.
Qed.

Lemma Formula_init_builds_witness :
  wf (Binary "->" (Atom "p") (Atom "T")) = true /\
  "->" = "->" /\ Some (Atom "p") = Some (Atom "p")
  /\ Some (Atom "T") = Some (Atom "T").
Proof.
  apply (proj1 Formula_init_builds "->" (Some (Atom "p")) (Some (Atom "T"))
           (Binary "->" (Atom "p") (Atom "T"))).
  - reflexivity.
  - intros g E. injection E as <-. reflexivity.
  - intros g E. injection E as <-. reflexivity.
Defined.

(** ** The classifiers and the truth table *)

Lemma existsb_id_forallb_negb (l : list bool) :
  existsb id l = negb (forallb negb l).
Proof.
  induction l as [|b l IH]; [reflexivity|]. cbn [existsb forallb].
  rewrite IH. destruct b; reflexivity.
Qed.

Section ClassifierTable.

Variable set_order : Formula -> list string.

Hypothesis set_order_lists :
  forall formula, set_order formula ≡ₚ elements (variables formula).

(** X23: for a formula with at least one variable, the truth values of the
    formula over the models of its variables are a table of [2 ^ n]
    entries, and the classifiers read this table: [is_tautology] holds when
    every entry is true, [is_contradiction] when every entry is false, and
    [is_satisfiable] when some entry is true. *)
Theorem classifiers_read_table (formula : Formula) :
  wf formula = true -> set_order formula <> [] ->
  exists table,
    (let* models := all_models (set_order formula) in
     truth_values formula models) = Ret table /\
    length table = 2 ^ length (set_order formula) /\
    is_tautology set_order formula = Ret (forallb id table) /\
    is_contradiction set_order formula = Ret (forallb negb table) /\
    is_satisfiable set_order formula = Ret (existsb id table).
Proof.
  intros Hwf Hne.
  assert (Hwn : wf (Unary "~" formula) = true) by exact Hwf.
  pose proof (set_order_NoDup set_order set_order_lists formula) as Hnd.
  pose proof (set_order_names set_order set_order_lists formula) as Hvar.
  pose proof (row_is_model set_order set_order_lists formula) as Hrows.
  exists ((fun m => truth formula m) <$> assignments (set_order formula)).
  split.
  { apply truth_values_rows; try assumption.
    intros v Hv. apply (set_order_elem set_order set_order_lists), Hv. }
  split; [rewrite length_fmap; apply assignments_length|].
  assert (Ht : is_tautology set_order formula
               = Ret (forallb id ((fun m => truth formula m)
                                    <$> assignments (set_order formula)))).
  { rewrite (is_tautology_value set_order set_order_lists formula Hwf).
    f_equal. unfold tautology_value.
    destruct (set_order formula) as [|v vs] eqn:E; [congruence|].
    symmetry. apply forallb_fmap_ext. reflexivity. }
  assert (Hc : tautology_value set_order (Unary "~" formula)
               = forallb negb ((fun m => truth formula m)
                                 <$> assignments (set_order formula))).
  { rewrite (forallb_fmap_ext negb _ (fun m => negb (truth formula m)))
      by reflexivity.
    apply eq_true_iff_eq.
    rewrite (tautology_value_all set_order set_order_lists), forallb_forall.
    split.
    - intros H row Hin. apply list_elem_of_In in Hin.
      destruct (Hrows row Hin) as [Hm Hs]. apply (H row Hm Hs).
    - intros H m Hm Hs.
      destruct (model_has_row set_order set_order_lists formula m Hs Hne)
        as (row & Hin & Hrow).
      cbn [truth]. rewrite <- Hrow. apply H, list_elem_of_In, Hin. }
  assert (Hcon : is_contradiction set_order formula
                 = Ret (tautology_value set_order (Unary "~" formula))).
  { unfold is_contradiction.
    change (Formula_init "~" (Some formula) None) with (Ret (Unary "~" formula)).
    cbn [bind].
    rewrite (is_tautology_value set_order set_order_lists _ Hwn). cbn [bind].
    destruct (tautology_value set_order (Unary "~" formula)); reflexivity. }
  split; [exact Ht|]. split; [rewrite Hcon, Hc; reflexivity|].
  unfold is_satisfiable. rewrite Hcon, Hc. cbn [bind].
  rewrite existsb_id_forallb_negb.
  destruct (forallb negb _); reflexivity.
Qed.

End ClassifierTable.

Lemma classifiers_read_table_witness :
  let set_order := fun formula => elements (variables formula) in
  let formula := Binary "->" (Atom "p") (Atom "q") in
  exists table,
    (let* models := all_models (set_order formula) in
     truth_values formula models) = Ret table /\
    length table = 2 ^ length (set_order formula) /\
    is_tautology set_order formula = Ret (forallb id table) /\
    is_contradiction set_order formula = Ret (forallb negb table) /\
    is_satisfiable set_order formula = Ret (existsb id table).
Proof.
  intros set_order formula.
  apply (classifiers_read_table set_order).
  - intros f. reflexivity.
  - reflexivity.
  - vm_compute. discriminate.
Defined.
